(** * camlistored: request routing and partition registry

    A shallow embedding of [server/go/camlistored/camlistored.go]: the path
    grammar ([parseCamliPath]), the partition registry built at startup
    ([setupMirrorPartitions]), the method/action dispatcher
    ([handleCamliUsingStorage]), the pre-mux hook
    ([pickPartitionHandlerMaybe]) and the indexer mount ([makeIndexHandler]).

    Go strings are byte strings: [string].  Go [int] indices are [Z]
    (the sentinel [-1] of [strings.Index] is kept).  A slice expression whose
    bounds are out of range panics; that is kept as a [Panic] result and
    shown not to happen.  Calls to collaborators outside the file ([log],
    [httputil], the handlers of [camli/blobserver/handlers], [camli/auth])
    are recorded as a trace of events. *)

From Stdlib Require Import String Ascii ZArith List Lia Bool.
From stdpp Require Import base option list gmap strings.

Local Open Scope string_scope.
Local Open Scope Z_scope.

(** ** Go strings *)

Module GoString.

(** [len(s)] *)
Definition len (s : string) : Z := Z.of_nat (String.length s).

(** [strings.HasPrefix(s, prefix)] *)
Definition strings_HasPrefix (s prefix : string) : bool := String.prefix prefix s.

(** [strings.Index(s, sep)]: the index of the first instance of [sep] in
  [s], or [-1].  [strings_Index_from i s sep] scans the tail [s] that
  starts at offset [i] of the whole string. *)
Fixpoint strings_Index_from (i : Z) (s sep : string) : Z :=
if String.prefix sep s then i
else match s with
     | EmptyString => -1
     | String _ s' => strings_Index_from (i + 1) s' sep
     end.

Definition strings_Index (s sep : string) : Z := strings_Index_from 0 s sep.

(** [strings.Split(s, sep, -1)] for a non-empty [sep]: the pieces of [s]
  between the non-overlapping instances of [sep], scanned left to right.
  [skip] counts the bytes of a matched separator still to be passed over,
  [cur] is the piece read so far.  With an empty [sep] Go explodes [s]
  into its characters; on byte strings that is one piece per byte. *)
Fixpoint strings_Split_go (sep : string) (skip : nat) (cur : string) (s : string)
: list string :=
match s with
| EmptyString => [cur]
| String c s' =>
    match skip with
    | S k => strings_Split_go sep k cur s'
    | O => if String.prefix sep s
           then cur :: strings_Split_go sep (String.length sep - 1) "" s'
           else strings_Split_go sep O (cur ++ String c "") s'
    end
end.

Fixpoint explode (s : string) : list string :=
match s with
| EmptyString => []
| String c s' => String c "" :: explode s'
end.

Definition strings_Split (s sep : string) : list string :=
match sep with
| EmptyString => explode s
| _ => strings_Split_go sep O "" s
end.

End GoString.
Export GoString.

(** ** Results of Go code that may panic, and traces of external calls *)

Inductive Result (A : Type) : Type :=
| Ok (a : A)
| Panic (msg : string).
Arguments Ok {A} a.
Arguments Panic {A} msg.

#[global] Instance Result_ret : MRet Result := fun _ a => Ok a.
#[global] Instance Result_bind : MBind Result := fun _ _ k r =>
  match r with
  | Ok a => k a
  | Panic msg => Panic msg
  end.

(** [s[lo:hi]] and [s[lo:]] *)
Definition slice (s : string) (lo hi : Z) : Result string :=
  if (0 <=? lo) && (lo <=? hi) && (hi <=? len s)
  then Ok (substring (Z.to_nat lo) (Z.to_nat (hi - lo)) s)
  else Panic "slice bounds out of range".

Definition slice_from (s : string) (lo : Z) : Result string :=
  slice s lo (len s).

(** ** The path grammar *)

Definition camliPrefix : string := "/camli/".
Definition partitionPrefix : string := "/partition-".

Inductive os_Error : Type :=
| InvalidCamliPath.   (* os.NewError("Invalid Camlistore request path") *)

Section PathGrammar.

(** [isValidPartitionName] is declared in another file of package main. *)
Variable isValidPartitionName : string -> bool.

(** The three named results [(partitionName, action, err)]; [err = nil]
    is [None].  The named results keep what was assigned before an early
    [return]. *)
Definition parseCamliPath (path : string)
  : Result (string * string * option os_Error) :=
  let camIdx := strings_Index path camliPrefix in
  if camIdx =? -1 then Ok ("", "", Some InvalidCamliPath)
  else
    action ← slice_from path (camIdx + len camliPrefix);
    if camIdx =? 0 then Ok ("", action, None)
    else if negb (strings_HasPrefix path partitionPrefix)
    then Ok ("", action, Some InvalidCamliPath)
    else
      partitionName ← slice path (len partitionPrefix) camIdx;
      if negb (isValidPartitionName partitionName)
      then Ok (partitionName, action, Some InvalidCamliPath)
      else Ok (partitionName, action, None).

End PathGrammar.

(** ** Partitions and the package-level state *)

(** Pointers to [partitionConfig] structs: the package-level object
    [mainPartition], and the structs allocated at run time by
    [&partitionConfig{...}], numbered in allocation order. *)
Inductive ptr : Type :=
| mainPartition
| alloc (n : nat).

(** [partitionConfig] is declared in another file of package main; the
    field order is the one of the positional literal that initialises
    [mainPartition]. *)
Record partitionConfig : Type := mkPartitionConfig {
  name : string;
  writable : bool;
  readable : bool;
  queue : bool;
  mirrors : list ptr;
  urlbase : string
}.

Definition set_urlbase (u : string) (p : partitionConfig) : partitionConfig :=
  mkPartitionConfig (name p) (writable p) (readable p) (queue p) (mirrors p) u.

Definition set_mirrors (m : list ptr) (p : partitionConfig) : partitionConfig :=
  mkPartitionConfig (name p) (writable p) (readable p) (queue p) m (urlbase p).

(** The package-level variables that the routing code reads or writes:
    the struct behind [mainPartition], the structs allocated so far,
    [queuePartitionMap] and [storage]. *)
Record Globals (Storage : Type) : Type := mkGlobals {
  mainPartition_obj : partitionConfig;
  heap : list partitionConfig;
  queuePartitionMap : gmap string ptr;
  storage : Storage
}.
Arguments mkGlobals {Storage}.
Arguments mainPartition_obj {Storage}.
Arguments heap {Storage}.
Arguments queuePartitionMap {Storage}.
Arguments storage {Storage}.

(** Startup code either goes on or ends the process ([log.Fatalf]). *)
Inductive Startup (A : Type) : Type :=
| Continue (a : A)
| Fatal (msg : string).
Arguments Continue {A} a.
Arguments Fatal {A} msg.

Section Registry.

Context {Storage : Type}.

(** [*p] *)
Definition deref (g : Globals Storage) (p : ptr) : option partitionConfig :=
  match p with
  | mainPartition => Some (mainPartition_obj g)
  | alloc n => heap g !! n
  end.

(** The state of the package-level variables when [main] starts. *)
Definition init_Globals (s : Storage) : Globals Storage :=
  mkGlobals (mkPartitionConfig "" true true false [] "http://localhost") [] ∅ s.

(** An assignment to fields of [*p]. *)
Definition update (p : ptr) (f : partitionConfig -> partitionConfig)
           (g : Globals Storage) : Globals Storage :=
  match p with
  | mainPartition =>
      mkGlobals (f (mainPartition_obj g)) (heap g) (queuePartitionMap g) (storage g)
  | alloc n =>
      mkGlobals (mainPartition_obj g) (alter f n (heap g)) (queuePartitionMap g) (storage g)
  end.

(** [&partitionConfig{...}] *)
Definition new_partitionConfig (part : partitionConfig) (g : Globals Storage)
  : ptr * Globals Storage :=
  (alloc (length (heap g)),
   mkGlobals (mainPartition_obj g) (heap g ++ [part])%list (queuePartitionMap g) (storage g)).

(** [queuePartitionMap[k] = p] *)
Definition map_store (k : string) (p : ptr) (g : Globals Storage) : Globals Storage :=
  mkGlobals (mainPartition_obj g) (heap g) (<[k := p]> (queuePartitionMap g)) (storage g).

(** The body of the [for ... range] loop of [setupMirrorPartitions]. *)
Fixpoint setupMirrorPartitions_loop (names : list string) (g : Globals Storage)
  : Startup (Globals Storage) :=
  match names with
  | [] => Continue g
  | partName :: rest =>
      match queuePartitionMap g !! partName with
      | Some _ => Fatal "Duplicate partition in --queue-partitions"
      | None =>
          let '(part, g) :=
            new_partitionConfig (mkPartitionConfig partName false true true [] "") g in
          let g :=
            update part
              (set_urlbase (urlbase (mainPartition_obj g) +:+ "/partition-" +:+ partName)) g in
          let g :=
            update mainPartition (fun m => set_mirrors (mirrors m ++ [part])%list m) g in
          setupMirrorPartitions_loop rest g
      end
  end.

Definition setupMirrorPartitions (flagQueuePartitions : string) (g : Globals Storage)
  : Startup (Globals Storage) :=
  let g := map_store "" mainPartition g in
  if String.eqb flagQueuePartitions "" then Continue g
  else setupMirrorPartitions_loop (strings_Split flagQueuePartitions ",") g.

(** The part of [commandLineConfigurationMain] that builds the registry:
    [storage] is assigned, [mainPartition.urlbase] is set to the web
    server's base URL, then the mirrors are set up. *)
Definition commandLineConfigurationMain_registry
           (flagQueuePartitions baseURL : string) (s : Storage)
  : Startup (Globals Storage) :=
  let g := init_Globals s in
  let g := update mainPartition (set_urlbase baseURL) g in
  setupMirrorPartitions flagQueuePartitions g.

End Registry.

(** ** Requests, handlers and the trace of external calls *)

(** The two fields of [*http.Request] that the routing code reads. *)
Record Request : Type := mkRequest {
  Method : string;
  URL_Path : string
}.

(** Modelled from the spec: the capability set of a storage backend
    (fetch, enumerate, stat, upload, remove); [blobserver.Storage] itself is
    declared outside this file. *)
Inductive BackendOp : Type :=
| op_fetch | op_enumerate | op_stat | op_upload | op_remove.

(** An argument of a [log.Printf] call. *)
Inductive Arg : Type :=
| arg_string (s : string)
| arg_partition (p : ptr).

(** What handling a request does to the outside: log lines, the client
    error written by [httputil.BadRequestError], operations on a storage
    backend and response bodies written by the handlers of other
    packages. *)
Inductive Event : Type :=
| log_Printf (format : string) (args : list Arg)
| httputil_BadRequestError (msg : string)
| backend (op : BackendOp)
| respond (body : string).

Definition is_backend (e : Event) : bool :=
  match e with
  | backend _ => true
  | _ => false
  end.

Definition is_log (e : Event) : bool :=
  match e with
  | log_Printf _ _ => true
  | _ => false
  end.

(** A handler that returns normally, and an [http.HandlerFunc] in general
    (the closure of [makeIndexHandler] may panic). *)
Definition Handler : Type := Request -> list Event.
Definition HandlerFunc : Type := Request -> list Event * Result unit.

(** The handler constructors of [camli/blobserver/handlers] and the
    decorator of [camli/auth]. *)
Class Handlers (Storage : Type) : Type := {
  auth_RequireAuth : Handler -> Handler;
  handlers_CreateGetHandler : Storage -> Handler;
  handlers_CreateEnumerateHandler : Storage -> ptr -> Handler;
  handlers_CreateStatHandler : Storage -> ptr -> Handler;
  handlers_CreateUploadHandler : Storage -> ptr -> Handler;
  handlers_CreateRemoveHandler : Storage -> ptr -> Handler;
  handlers_CreateNonStandardPutHandler : Storage -> ptr -> Handler
}.

Section Server.

Context {Storage : Type} `{!Handlers Storage}.

(** The flag [--reqlog], fixed by [flag.Parse] before anything runs. *)
Variable flagRequestLog : bool.

(** [isValidPartitionName] is declared in another file of package main. *)
Variable isValidPartitionName : string -> bool.

Definition unsupportedHandler : Handler := fun req =>
  [httputil_BadRequestError "Unsupported camlistore path or method."].

(** The value of the local variable [handler] of
    [handleCamliUsingStorage] after the two nested switches. *)
Definition handleCamliUsingStorage_handler
           (method action : string) (partition : ptr) (storage : Storage) : Handler :=
  let handler := unsupportedHandler in
  if String.eqb method "GET" then
    if String.eqb action "enumerate-blobs" then
      auth_RequireAuth (handlers_CreateEnumerateHandler storage partition)
    else if String.eqb action "stat" then
      auth_RequireAuth (handlers_CreateStatHandler storage partition)
    else
      handlers_CreateGetHandler storage
  else if String.eqb method "POST" then
    if String.eqb action "stat" then
      auth_RequireAuth (handlers_CreateStatHandler storage partition)
    else if String.eqb action "upload" then
      auth_RequireAuth (handlers_CreateUploadHandler storage partition)
    else if String.eqb action "remove" then
      auth_RequireAuth (handlers_CreateRemoveHandler storage partition)
    else handler
  else if String.eqb method "PUT" then
    auth_RequireAuth (handlers_CreateNonStandardPutHandler storage partition)
  else handler.

Definition handleCamliUsingStorage
           (req : Request) (action : string) (partition : ptr) (storage : Storage)
  : list Event :=
  let logged :=
    if flagRequestLog
    then [log_Printf "method %q; partition %q; action %q"
                     [arg_string (Method req); arg_partition partition; arg_string action]]
    else [] in
  let handler := handleCamliUsingStorage_handler (Method req) action partition storage in
  (logged ++ handler req)%list.

Definition handleCamli (g : Globals Storage) : HandlerFunc := fun req =>
  match parseCamliPath isValidPartitionName (URL_Path req) with
  | Panic msg => ([], Panic msg)
  | Ok (partName, action, Some _) =>
      (log_Printf "Invalid request for method %q, path %q"
                  [arg_string (Method req); arg_string (URL_Path req)]
         :: unsupportedHandler req,
       Ok tt)
  | Ok (partName, action, None) =>
      match queuePartitionMap g !! partName with
      | None => ([httputil_BadRequestError "Unconfigured partition."], Ok tt)
      | Some partition =>
          (handleCamliUsingStorage req action partition (storage g), Ok tt)
      end
  end.

(** [nil] handler is [None]. *)
Definition pickPartitionHandlerMaybe (g : Globals Storage) (req : Request)
  : option HandlerFunc * bool :=
  if negb (strings_HasPrefix (URL_Path req) partitionPrefix)
  then (None, false)
  else (Some (handleCamli g), true).

(** The closure returned by [makeIndexHandler], with the two variables
    it captures. *)
Definition makeIndexHandler_closure (partition : ptr) (storage : Storage)
  : HandlerFunc := fun req =>
  let prefix := "/indexer" in
  if negb (strings_HasPrefix (URL_Path req) prefix)
  then ([], Panic "bogus request")
  else
    match slice_from (URL_Path req) (len prefix) with
    | Panic msg => ([], Panic msg)
    | Ok path =>
        match parseCamliPath isValidPartitionName path with
        | Panic msg => ([], Panic msg)
        | Ok (_, action, Some _) =>
            (log_Printf "Invalid request for method %q, path %q"
                        [arg_string (Method req); arg_string (URL_Path req)]
               :: unsupportedHandler req,
             Ok tt)
        | Ok (_, action, None) =>
            (log_Printf "INDEXER action %s on partition %q"
                        [arg_string action; arg_partition partition]
               :: handleCamliUsingStorage req action partition storage,
             Ok tt)
        end
    end.

Definition makeIndexHandler (g : Globals Storage) (storage : Storage)
  : HandlerFunc * Globals Storage :=
  let prefix := "/indexer" in
  let '(partition, g) :=
    new_partitionConfig
      (mkPartitionConfig "indexer" true false false []
                         (urlbase (mainPartition_obj g) +:+ prefix)) g in
  (makeIndexHandler_closure partition storage, g).

End Server.

(** ** The specification's vocabulary *)

Module Spec.

(** [s] begins with [p]. *)
Definition begins_with (p s : string) : Prop :=
  exists rest, s = p +:+ rest.

(** [sep] occurs in [s] at index [i], and nowhere before. *)
Definition occurs_at (sep s : string) (i : nat) : Prop :=
  exists pre post, s = pre +:+ sep +:+ post /\ String.length pre = i.

Definition first_occurrence (sep s : string) (i : nat) : Prop :=
  occurs_at sep s i /\ forall j, occurs_at sep s j -> (i <= j)%nat.

Definition absent (sep s : string) : Prop :=
  forall i, ~ occurs_at sep s i.

(** [s] without the leading [p], when [s] begins with [p]. *)
Fixpoint strip_prefix (p s : string) : option string :=
  match p, s with
  | EmptyString, _ => Some s
  | String a p', String b s' => if Ascii.eqb a b then strip_prefix p' s' else None
  | String _ _, EmptyString => None
  end.

(** The dispatch table of the specification, row by row: method, action
    (or any action), whether authentication is required, and what the
    handler does. *)
Inductive ActionPattern : Type :=
| exactly (action : string)
| any_action.

Inductive Behaviour : Type :=
| list_blobs | stat_blobs | stream_blob | upload_blobs | remove_blobs | legacy_put.

Record Row : Type := mkRow {
  row_method : string;
  row_action : ActionPattern;
  row_auth : bool;
  row_behaviour : Behaviour
}.

Definition dispatch_table : list Row :=
  [ mkRow "GET" (exactly "enumerate-blobs") true list_blobs;
    mkRow "GET" (exactly "stat") true stat_blobs;
    mkRow "GET" any_action false stream_blob;
    mkRow "POST" (exactly "stat") true stat_blobs;
    mkRow "POST" (exactly "upload") true upload_blobs;
    mkRow "POST" (exactly "remove") true remove_blobs;
    mkRow "PUT" any_action true legacy_put ].

Definition row_matches (method action : string) (r : Row) : bool :=
  String.eqb method (row_method r)
  && match row_action r with
     | exactly a => String.eqb action a
     | any_action => true
     end.

Definition table_lookup (method action : string) : option Row :=
  List.find (row_matches method action) dispatch_table.

(** A (method, action) pair that some row of the table covers. *)
Definition in_table (method action : string) : Prop :=
  method = "GET" \/ method = "PUT" \/
  (method = "POST" /\ (action = "stat" \/ action = "upload" \/ action = "remove")).

Section Realise.

Context {Storage : Type} `{!Handlers Storage}.

Definition behaviour_handler (b : Behaviour) (storage : Storage) (partition : ptr)
  : Handler :=
  match b with
  | list_blobs => handlers_CreateEnumerateHandler storage partition
  | stat_blobs => handlers_CreateStatHandler storage partition
  | stream_blob => handlers_CreateGetHandler storage
  | upload_blobs => handlers_CreateUploadHandler storage partition
  | remove_blobs => handlers_CreateRemoveHandler storage partition
  | legacy_put => handlers_CreateNonStandardPutHandler storage partition
  end.

(** The handler the table prescribes. *)
Definition table_handler (method action : string) (partition : ptr) (storage : Storage)
  : Handler :=
  match table_lookup method action with
  | None => unsupportedHandler
  | Some r =>
      let h := behaviour_handler (row_behaviour r) storage partition in
      if row_auth r then auth_RequireAuth h else h
  end.

(** The mount adapter in the specification's words: strip the mount
    prefix, parse the rest with the path grammar, dispatch through the
    table against the synthetic partition and the mounted backend; a
    rest that does not parse gets the unsupported-path client error. *)
Definition mounted (isValidPartitionName : string -> bool) (prefix : string)
           (partition : ptr) (storage : Storage) (req : Request)
  : option (list Event) :=
  match strip_prefix prefix (URL_Path req) with
  | None => None
  | Some sub =>
      match parseCamliPath isValidPartitionName sub with
      | Ok (_, action, None) =>
          Some (table_handler (Method req) action partition storage req)
      | Ok (_, _, Some _) =>
          Some [httputil_BadRequestError "Unsupported camlistore path or method."]
      | Panic _ => None
      end
  end.

End Realise.

End Spec.

(** ** A concrete deployment, to run the definitions on *)

Module Reference.

(** Modelled from the spec: [isValidPartitionName], which is declared in
    another file of package main; a valid name has no slash (and so does
    not contain the partition-prefix marker). *)
Fixpoint isValidPartitionName (name : string) : bool :=
  match name with
  | EmptyString => true
  | String c rest => negb (Ascii.eqb c "/") && isValidPartitionName rest
  end.

(** A backend identified by its root directory. *)
Definition Storage : Type := string.

(** Every request carries the right credential, and each handler does
    the one backend operation it stands for. *)
#[global] Instance handlers : Handlers Storage := {|
  auth_RequireAuth h := h;
  handlers_CreateGetHandler s := fun _ => [backend op_fetch; respond s];
  handlers_CreateEnumerateHandler s p := fun _ => [backend op_enumerate; respond s];
  handlers_CreateStatHandler s p := fun _ => [backend op_stat; respond s];
  handlers_CreateUploadHandler s p := fun _ => [backend op_upload; respond s];
  handlers_CreateRemoveHandler s p := fun _ => [backend op_remove; respond s];
  handlers_CreateNonStandardPutHandler s p := fun _ => [backend op_upload; respond s]
|}.

(** The registry of a server started with the default flags. *)
Definition globals : Globals Storage :=
  match commandLineConfigurationMain_registry
          "queue-indexer" "http://localhost:3179" "/tmp/camliroot" with
  | Continue g => g
  | Fatal _ => init_Globals "/tmp/camliroot"
  end.

End Reference.

(** ** Startup: [exitFailure], [handleRoot] and the three [main] functions *)

(** The one-byte string ["\n"]. *)
Definition newline : string := String "010"%char "".

(** [strings.HasSuffix(s, suffix)]:
    [len(s) >= len(suffix) && s[len(s)-len(suffix):] == suffix]. *)
Definition strings_HasSuffix (s suffix : string) : bool :=
  (len suffix <=? len s)
  && String.eqb (substring (String.length s - String.length suffix)
                           (String.length suffix) s) suffix.

(** A name without the byte ['/']. *)
Fixpoint slash_free (s : string) : bool :=
  match s with
  | EmptyString => true
  | String c rest => negb (Ascii.eqb c "/") && slash_free rest
  end.

(** The names that [setupMirrorPartitions] loops over: none when the flag
    is empty (the early [return]), else the pieces between the commas. *)
Definition queue_partition_names (flagQueuePartitions : string) : list string :=
  if String.eqb flagQueuePartitions "" then []
  else strings_Split flagQueuePartitions ",".

(** The struct that the loop of [setupMirrorPartitions] allocates for a
    name, once its [urlbase] is assigned. *)
Definition queue_partition (base partName : string) : partitionConfig :=
  mkPartitionConfig partName false true true [] (base +:+ "/partition-" +:+ partName).

Module Main.

(** The command-line flags, after [flag.Parse]. *)
Record Flags : Type := mkFlags {
  flagUseConfigFiles : bool;
  flagPasswordFile : string;
  flagStorageRoot : string;
  flagQueuePartitions : string;
  flagRequestLog : bool;
  flagDevMySql : bool;
  flagDevSearch : bool;
  flagDatabaseName : string
}.

(** The flags' default values. *)
Definition default_Flags : Flags :=
  mkFlags false "password.txt" "/tmp/camliroot" "queue-indexer" false false false
          "devcamlistore".

(** What the process writes while it starts: [fmt.Fprintf(os.Stderr, ...)],
    [log.Printf] and [log.Fatalf]. *)
Inductive Output : Type :=
| stderr_Fprintf (pattern : string) (args : list string)
| startup_log_Printf (format : string) (args : list string)
| log_Fatalf (format : string) (args : list string).

(** A [main] function either ends the process with [os.Exit(code)] or
    reaches [ws.Serve()]. *)
Inductive Process (A : Type) : Type :=
| os_Exit (code : Z) (out : list Output)
| ws_Serve (a : A) (out : list Output).
Arguments os_Exit {A} code out.
Arguments ws_Serve {A} a out.

Definition exitFailure {A : Type} (pattern : string) (args : list string) : Process A :=
  let pattern :=
    if negb (strings_HasSuffix pattern newline) then pattern +:+ newline else pattern in
  os_Exit 1 [stderr_Fprintf pattern args].

Section Main.

Context {Storage BlobRef : Type} `{!Handlers Storage}.

(** [isValidPartitionName] is declared in another file of package main. *)
Variable isValidPartitionName : string -> bool.

(** A handler reads the package-level variables when a request arrives. *)
Definition GlobalHandler : Type := Globals Storage -> HandlerFunc.
Definition HandlerPicker : Type := Globals Storage -> Request -> option HandlerFunc * bool.

(** Modelled from the spec: the web server of [camli/webserver], as far as
    startup uses it; it records the pre-mux hooks and the static route
    table, in registration order. *)
Record Server : Type := mkServer {
  premux : list HandlerPicker;
  routes : list (string * GlobalHandler)
}.

Definition webserver_New : Server := mkServer [] [].

Definition RegisterPreMux (hp : HandlerPicker) (ws : Server) : Server :=
  mkServer (premux ws ++ [hp])%list (routes ws).

Definition HandleFunc (pattern : string) (h : GlobalHandler) (ws : Server) : Server :=
  mkServer (premux ws) (routes ws ++ [(pattern, h)])%list.

(** What startup gets from outside the file: the environment, the local
    disk storage, the web server's base URL, the signer's public key, the
    MySQL indexer (built from the database name, the owner's blob reference
    and the storage its key fetcher reads, and used as a
    [blobserver.Storage]) with its liveness check, and the handlers of
    other packages or files. *)
Record World : Type := mkWorld {
  os_Getenv : string -> string;
  localdisk_New : string -> Storage + string;
  ws_BaseURL : string;
  client_SignerPublicKeyBlobref : option BlobRef;
  mysqlindexer_Indexer : string -> BlobRef -> Storage -> Storage;
  Indexer_IsAlive : Storage -> bool * string;
  search_CreateHandler : Storage -> BlobRef -> Handler;
  http_FileServer : string -> string -> HandlerFunc;
  setupHome : HandlerFunc
}.

Definition handleRoot (f : Flags) : HandlerFunc := fun req =>
  let configLink :=
    if flagUseConfigFiles f
    then "<p>If you're coming from localhost, hit <a href='/setup'>/setup</a>.</p>"
    else "" in
  ([respond ("<html><body>This is camlistored, a "
             +:+ "<a href='http://camlistore.org'>Camlistore</a> server."
             +:+ configLink +:+ "</body></html>" +:+ newline)],
   Ok tt).

(** The last statements of [commandLineConfigurationMain], from the
    registration of "/js/" on. *)
Definition serve_js (w : World) (ws : Server) (g : Globals Storage)
           (auth_AccessPassword : string) (out : list Output)
  : Process (Server * Globals Storage * string) :=
  let ws := HandleFunc "/js/" (fun _ => http_FileServer w "../../clients/js" "/js/") ws in
  ws_Serve (ws, g, auth_AccessPassword) out.

(** The result carries the server, the package-level variables and
    [auth.AccessPassword] as they are when [ws.Serve()] is reached.  When
    neither [--devsearch] nor [--devmysqlindexer] is set, the two [if]
    statements that register "/camli/search" and "/indexer/" do nothing. *)
Definition commandLineConfigurationMain (f : Flags) (w : World)
  : Process (Server * Globals Storage * string) :=
  let auth_AccessPassword := os_Getenv w "CAMLI_PASSWORD" in
  if len auth_AccessPassword =? 0
  then exitFailure "No CAMLI_PASSWORD environment variable set." []
  else if String.eqb (flagStorageRoot f) ""
  then exitFailure "No storage root specified in --root" []
  else
    match localdisk_New w (flagStorageRoot f) with
    | inr err => exitFailure "Error for --root of %q: %v" [flagStorageRoot f; err]
    | inl storage =>
        let ws := webserver_New in
        let out := [startup_log_Printf "Base URL is %q" [ws_BaseURL w]] in
        match commandLineConfigurationMain_registry
                (flagQueuePartitions f) (ws_BaseURL w) storage with
        | Fatal msg => os_Exit 1 (out ++ [log_Fatalf msg []])%list
        | Continue g =>
            let ws :=
              RegisterPreMux
                (pickPartitionHandlerMaybe (flagRequestLog f) isValidPartitionName) ws in
            let ws := HandleFunc "/" (fun _ => handleRoot f) ws in
            let ws :=
              HandleFunc "/camli/" (handleCamli (flagRequestLog f) isValidPartitionName) ws in
            if flagDevSearch f || flagDevMySql f then
              match client_SignerPublicKeyBlobref w with
              | None => os_Exit 1 (out ++ [log_Fatalf "Public key not configured." []])%list
              | Some ownerBlobRef =>
                  let myIndexer :=
                    mysqlindexer_Indexer w (flagDatabaseName f) ownerBlobRef storage in
                  let '(ok, err) := Indexer_IsAlive w myIndexer in
                  if negb ok
                  then os_Exit 1
                         (out ++ [log_Fatalf "Could not connect indexer to MySQL server: %s"
                                             [err]])%list
                  else
                    let ws :=
                      if flagDevSearch f
                      then HandleFunc "/camli/search"
                             (fun _ req =>
                                (auth_RequireAuth
                                   (search_CreateHandler w myIndexer ownerBlobRef) req,
                                 Ok tt)) ws
                      else ws in
                    let '(ws, g) :=
                      if flagDevMySql f
                      then
                        let '(h, g) :=
                          makeIndexHandler (flagRequestLog f) isValidPartitionName
                                           g myIndexer in
                        (HandleFunc "/indexer/" (fun _ => h) ws, g)
                      else (ws, g) in
                    serve_js w ws g auth_AccessPassword out
              end
            else serve_js w ws g auth_AccessPassword out
        end
    end.

Definition configFileMain (f : Flags) (w : World) : Process Server :=
  let ws := webserver_New in
  let ws := HandleFunc "/" (fun _ => handleRoot f) ws in
  let ws := HandleFunc "/setup" (fun _ => setupHome w) ws in
  ws_Serve ws [].

(** In the configuration-file mode the package-level variables stay as
    they are at program start ([None]). *)
Definition main (f : Flags) (w : World)
  : Process (Server * option (Globals Storage * string)) :=
  if flagUseConfigFiles f then
    match configFileMain f w with
    | os_Exit code out => os_Exit code out
    | ws_Serve ws out => ws_Serve (ws, None) out
    end
  else
    match commandLineConfigurationMain f w with
    | os_Exit code out => os_Exit code out
    | ws_Serve (ws, g, pw) out => ws_Serve (ws, Some (g, pw)) out
    end.

End Main.

End Main.

(** A world for the reference deployment: the password is set, the local
    disk storage is its root directory, the signer's key is configured and
    the indexer is alive. *)
Module ReferenceMain.

Definition world : Main.World (Storage := Reference.Storage) (BlobRef := string) :=
  Main.mkWorld
    (fun key => if String.eqb key "CAMLI_PASSWORD" then "secret" else "")
    (fun root => inl root)
    "http://localhost:3179"
    (Some "sha1-owner")
    (fun database _ _ => database)
    (fun _ => (true, ""))
    (fun _ _ _ => [backend op_enumerate])
    (fun _ _ _ => ([respond "js"], Ok tt))
    (fun _ => ([respond "setup"], Ok tt)).

Definition dev_Flags : Main.Flags :=
  Main.mkFlags false "password.txt" "/tmp/camliroot" "queue-indexer" false true true
               "devcamlistore".

(** The flags of a server started with [--useconfigfiles]. *)
Definition config_Flags : Main.Flags :=
  Main.mkFlags true "password.txt" "/tmp/camliroot" "queue-indexer" false false false
               "devcamlistore".

(** A world in which nothing is set up: no variable is in the
    environment, the storage root cannot be opened, no key is configured
    and the indexer is not alive. *)
Definition bare_world : Main.World (Storage := Reference.Storage) (BlobRef := string) :=
  Main.mkWorld
    (fun _ => "")
    (fun root => inr "no such directory")
    "http://localhost:3179"
    None
    (fun database _ _ => database)
    (fun _ => (false, "connection refused"))
    (fun _ _ _ => [backend op_enumerate])
    (fun _ _ _ => ([respond "js"], Ok tt))
    (fun _ => ([respond "setup"], Ok tt)).

End ReferenceMain.

(** ** Package misc: [SHA256Prefix] *)

Module Misc.

(** One hexadecimal digit, lowercase, as the verb [%x] prints it. *)
Definition hex_digit (d : N) : ascii :=
  match d with
  | 0%N => "0" | 1%N => "1" | 2%N => "2" | 3%N => "3"
  | 4%N => "4" | 5%N => "5" | 6%N => "6" | 7%N => "7"
  | 8%N => "8" | 9%N => "9" | 10%N => "a" | 11%N => "b"
  | 12%N => "c" | 13%N => "d" | 14%N => "e" | _ => "f"
  end%char.

Definition lowercase_hex (c : ascii) : Prop :=
  In c (list_ascii_of_string "0123456789abcdef").

(** [fmt.Sprintf("%x", bs)] on a byte slice: two digits per byte. *)
Fixpoint Sprintf_x (bs : list ascii) : string :=
  match bs with
  | [] => ""
  | b :: rest =>
      String (hex_digit (N_of_ascii b / 16))
             (String (hex_digit (N_of_ascii b mod 16)) (Sprintf_x rest))
  end.

Section SHA256Prefix.

(** [crypto/sha256]: the digest of the bytes written to the hash. *)
Variable sha256_Sum : list ascii -> list ascii.

Definition SHA256Prefix (data : list ascii) : Result string :=
  slice (Sprintf_x (sha256_Sum data)) 0 20.

End SHA256Prefix.

End Misc.

(** * Properties *)

(** ** Go strings *)

Section StringFacts.

Lemma append_nil_l (b : string) : "" +:+ b = b.
Proof. reflexivity. Qed.

Lemma append_cons (x : ascii) (a b : string) :
  String x a +:+ b = String x (a +:+ b).
Proof. reflexivity. Qed.

Lemma append_assoc (a b c : string) : (a +:+ b) +:+ c = a +:+ (b +:+ c).
Proof.
  induction a as [|x a IH]; [reflexivity|].
  rewrite !append_cons. now rewrite IH.
Qed.

Lemma append_empty_r (a : string) : a +:+ "" = a.
Proof.
  induction a as [|x a IH]; [reflexivity|].
  rewrite append_cons. now rewrite IH.
Qed.

Lemma length_append (a b : string) :
  String.length (a +:+ b) = (String.length a + String.length b)%nat.
Proof.
  induction a as [|x a IH]; [reflexivity|].
  rewrite append_cons. simpl. now rewrite IH.
Qed.

Lemma prefix_begins_with (p s : string) :
  String.prefix p s = true <-> Spec.begins_with p s.
Proof.
  unfold Spec.begins_with. revert s.
  induction p as [|a p IH]; intros s.
  - destruct s; simpl; split; eauto.
  - destruct s as [|b s]; simpl.
    + split; [discriminate | intros [r Hr]; discriminate].
    + destruct (ascii_dec a b) as [->|Hab].
      * rewrite IH. split; intros [r Hr]; exists r;
          rewrite append_cons in *; congruence.
      * split; [discriminate | intros [r Hr]; rewrite append_cons in Hr; congruence].
Qed.

Lemma HasPrefix_begins_with (s p : string) :
  strings_HasPrefix s p = true <-> Spec.begins_with p s.
Proof. apply prefix_begins_with. Qed.

Lemma HasPrefix_false (s p : string) :
  strings_HasPrefix s p = false <-> ~ Spec.begins_with p s.
Proof.
  rewrite <- HasPrefix_begins_with.
  destruct (strings_HasPrefix s p); split; congruence.
Qed.

Lemma substring_whole (s : string) : substring 0 (String.length s) s = s.
Proof. induction s as [|x s IH]; simpl; [reflexivity | now rewrite IH]. Qed.

Lemma substring_head (b c : string) :
  substring 0 (String.length b) (b +:+ c) = b.
Proof.
  induction b as [|x b IH].
  - rewrite append_nil_l. now destruct c.
  - rewrite append_cons. simpl. now rewrite IH.
Qed.

Lemma substring_skip (a s : string) (n : nat) :
  substring (String.length a) n (a +:+ s) = substring 0 n s.
Proof.
  induction a as [|x a IH]; [reflexivity|].
  rewrite append_cons. simpl. apply IH.
Qed.

Lemma strip_prefix_Some (p s r : string) :
  Spec.strip_prefix p s = Some r <-> s = p +:+ r.
Proof.
  revert s. induction p as [|a p IH]; intros s; simpl.
  - rewrite append_nil_l. split; congruence.
  - rewrite append_cons. destruct s as [|b s]; [split; discriminate|].
    destruct (Ascii.eqb_spec a b) as [->|Hab].
    + rewrite IH. split; congruence.
    + split; [discriminate | congruence].
Qed.

Lemma len_nonneg (s : string) : 0 <= len s.
Proof. unfold len. lia. Qed.

Lemma len_append (a b : string) : len (a +:+ b) = len a + len b.
Proof. unfold len. rewrite length_append. lia. Qed.

(** *** [strings.Index] finds the first occurrence *)

Lemma occurs_at_0 (sep s : string) :
  Spec.occurs_at sep s 0 <-> String.prefix sep s = true.
Proof.
  rewrite prefix_begins_with. unfold Spec.occurs_at, Spec.begins_with. split.
  - intros (pre & post & -> & Hlen). destruct pre; [|discriminate].
    now exists post.
  - intros [post ->]. now exists "", post.
Qed.

Lemma occurs_at_S (sep s : string) (c : ascii) (j : nat) :
  Spec.occurs_at sep (String c s) (S j) <-> Spec.occurs_at sep s j.
Proof.
  unfold Spec.occurs_at. split.
  - intros (pre & post & Heq & Hlen). destruct pre as [|x pre]; [discriminate|].
    rewrite append_cons in Heq. injection Heq as -> ->. injection Hlen as Hlen.
    now exists pre, post.
  - intros (pre & post & -> & Hlen). exists (String c pre), post.
    rewrite append_cons. simpl. now rewrite Hlen.
Qed.

Lemma occurs_at_empty_S (sep : string) (j : nat) : ~ Spec.occurs_at sep "" (S j).
Proof.
  intros (pre & post & Heq & Hlen). destruct pre; discriminate.
Qed.

Lemma Index_from_unfold (i : Z) (s sep : string) :
  strings_Index_from i s sep =
  if String.prefix sep s then i
  else match s with
       | EmptyString => -1
       | String _ s' => strings_Index_from (i + 1) s' sep
       end.
Proof. destruct s; reflexivity. Qed.

Lemma Index_from_spec (sep s : string) : forall i,
  (strings_Index_from i s sep = -1 /\ Spec.absent sep s) \/
  (exists n, strings_Index_from i s sep = i + Z.of_nat n /\
             Spec.first_occurrence sep s n).
Proof.
  induction s as [|c s IH]; intros i; rewrite Index_from_unfold;
    match goal with
    | |- context [String.prefix sep ?x] => destruct (String.prefix sep x) eqn:Hp
    end.
  - right. exists 0%nat. split; [lia|]. split; [now apply occurs_at_0 | lia].
  - left. split; [reflexivity|]. intros [|j] Hj.
    + apply occurs_at_0 in Hj. congruence.
    + now apply occurs_at_empty_S in Hj.
  - right. exists 0%nat. split; [lia|]. split; [now apply occurs_at_0 | lia].
  - destruct (IH (i + 1)) as [[Hi Habs] | (n & Hi & Hocc & Hmin)].
    + left. split; [exact Hi|]. intros [|j] Hj.
      * apply occurs_at_0 in Hj. congruence.
      * apply occurs_at_S in Hj. now apply (Habs j).
    + right. exists (S n). split; [lia|]. split.
      * now apply occurs_at_S.
      * intros [|j] Hj.
        -- apply occurs_at_0 in Hj. congruence.
        -- apply occurs_at_S in Hj. apply Hmin in Hj. lia.
Qed.

Lemma first_occurrence_unique (sep s : string) (n m : nat) :
  Spec.first_occurrence sep s n -> Spec.first_occurrence sep s m -> n = m.
Proof.
  intros [Hn Hnmin] [Hm Hmmin]. apply Hnmin in Hm. apply Hmmin in Hn. lia.
Qed.

Lemma Index_first_occurrence (sep s : string) (n : nat) :
  Spec.first_occurrence sep s n <-> strings_Index s sep = Z.of_nat n.
Proof.
  unfold strings_Index.
  destruct (Index_from_spec sep s 0) as [[Hi Habs] | (m & Hi & Hm)]; rewrite Hi.
  - split; [|lia]. intros [Hocc _]. now apply Habs in Hocc.
  - split.
    + intros Hn. rewrite (first_occurrence_unique _ _ _ _ Hn Hm). lia.
    + intros Heq. assert (m = n) as <- by lia. exact Hm.
Qed.

Lemma Index_absent (sep s : string) :
  Spec.absent sep s <-> strings_Index s sep = -1.
Proof.
  unfold strings_Index.
  destruct (Index_from_spec sep s 0) as [[Hi Habs] | (m & Hi & Hocc & _)]; rewrite Hi.
  - tauto.
  - split; [|lia]. intros Habs. now apply Habs in Hocc.
Qed.

End StringFacts.

(** ** Slices *)

Section SliceFacts.

Lemma slice_middle (a b c : string) :
  slice (a +:+ b +:+ c) (len a) (len a + len b) = Ok b.
Proof.
  unfold slice. rewrite !len_append.
  assert ((0 <=? len a) && (len a <=? len a + len b)
          && (len a + len b <=? len a + (len b + len c)) = true) as ->.
  { pose proof (len_nonneg a). pose proof (len_nonneg b). pose proof (len_nonneg c).
    rewrite !andb_true_iff, !Z.leb_le. lia. }
  f_equal. unfold len. rewrite Nat2Z.id.
  replace (Z.to_nat _) with (String.length b) by lia.
  rewrite substring_skip. apply substring_head.
Qed.

Lemma slice_from_append (a b : string) : slice_from (a +:+ b) (len a) = Ok b.
Proof.
  unfold slice_from. rewrite len_append.
  rewrite <- (append_empty_r b) at 1.
  rewrite slice_middle. reflexivity.
Qed.

End SliceFacts.

(** ** The path grammar *)

Section PathGrammarFacts.

Variable isValidPartitionName : string -> bool.

Local Abbreviation parse := (parseCamliPath isValidPartitionName).

Lemma bind_Ok {A B : Type} (a : A) (k : A -> Result B) : (Ok a ≫= k) = k a.
Proof. reflexivity. Qed.

(** Once the marker has been located, the action is what follows it. *)
Lemma parse_located (pre post : string) :
  Spec.first_occurrence camliPrefix (pre +:+ camliPrefix +:+ post) (String.length pre) ->
  parse (pre +:+ camliPrefix +:+ post) =
  if len pre =? 0 then Ok ("", post, None)
  else if negb (strings_HasPrefix (pre +:+ camliPrefix +:+ post) partitionPrefix)
  then Ok ("", post, Some InvalidCamliPath)
  else
    slice (pre +:+ camliPrefix +:+ post) (len partitionPrefix) (len pre) ≫= λ partitionName,
    if negb (isValidPartitionName partitionName)
    then Ok (partitionName, post, Some InvalidCamliPath)
    else Ok (partitionName, post, None).
Proof.
  intros Hfirst. apply Index_first_occurrence in Hfirst.
  unfold parseCamliPath. rewrite Hfirst. fold (len pre).
  assert ((len pre =? -1) = false) as ->.
  { pose proof (len_nonneg pre). apply Z.eqb_neq. lia. }
  rewrite <- len_append, <- append_assoc, slice_from_append, bind_Ok.
  rewrite append_assoc. reflexivity.
Qed.

(** A path that begins with the partition prefix has its first slash
    after that prefix, so the marker cannot start inside it. *)
Lemma marker_after_partitionPrefix (pre post : string) :
  Spec.begins_with partitionPrefix (pre +:+ camliPrefix +:+ post) ->
  (0 < String.length pre)%nat ->
  exists name, pre = partitionPrefix +:+ name.
Proof.
  intros [rest H] Hlen. unfold partitionPrefix, camliPrefix in *.
  rewrite !append_cons, !append_nil_l in H.
  destruct pre as [|c pre]; [simpl in Hlen; lia|]. clear Hlen.
  rewrite append_cons in H. injection H as Hc H. subst c.
  do 10 (destruct pre as [|c pre];
         [rewrite append_nil_l in H; discriminate
         |rewrite append_cons in H; injection H as Hc H; subst c]).
  exists pre. reflexivity.
Qed.

(** The parser never panics: its two slice expressions are in range. *)
Lemma parseCamliPath_total (path : string) :
  exists partitionName action err, parse path = Ok (partitionName, action, err).
Proof.
  destruct (Index_from_spec camliPrefix path 0)
    as [[Hi Habs] | (n & Hi & [(pre & post & -> & Hlen) Hmin])].
  - apply Index_absent in Habs. unfold parseCamliPath. rewrite Habs. simpl. eauto.
  - assert (Spec.first_occurrence camliPrefix (pre +:+ camliPrefix +:+ post)
                                  (String.length pre)) as Hfirst.
    { rewrite Hlen. split; [now exists pre, post | exact Hmin]. }
    rewrite (parse_located pre post Hfirst).
    destruct (len pre =? 0) eqn:Hz; [eauto|].
    destruct (strings_HasPrefix _ partitionPrefix) eqn:Hp; simpl negb; cbv iota; [|eauto].
    apply HasPrefix_begins_with in Hp.
    assert (0 < String.length pre)%nat as Hpos.
    { apply Z.eqb_neq in Hz. unfold len in Hz. lia. }
    destruct (marker_after_partitionPrefix pre post Hp Hpos) as [name ->].
    rewrite append_assoc, len_append, slice_middle, bind_Ok.
    destruct (isValidPartitionName name); simpl; eauto.
Qed.

(** C3: when the first occurrence of the marker "/camli/" is at an index
    [idx > 0], a path that does not begin with "/partition-" fails with
    [InvalidCamliPath]; a path that does is
    ["/partition-" ++ name ++ "/camli/" ++ action] with the marker at
    [idx], [name] and [action] are the substrings between the prefix and
    [idx] and after the marker, and when [name] passes the validity
    predicate the parse returns [(name, action)] with no error. *)
Theorem parseCamliPath_partition (path : string) (idx : nat) :
  Spec.first_occurrence camliPrefix path idx ->
  (0 < idx)%nat ->
  (~ Spec.begins_with partitionPrefix path ->
   exists partitionName action,
     parse path = Ok (partitionName, action, Some InvalidCamliPath)) /\
  (Spec.begins_with partitionPrefix path ->
   exists name action,
     path = partitionPrefix +:+ name +:+ camliPrefix +:+ action /\
     String.length (partitionPrefix +:+ name) = idx /\
     name = substring (String.length partitionPrefix)
                      (idx - String.length partitionPrefix) path /\
     action = substring (idx + String.length camliPrefix)
                        (String.length path - (idx + String.length camliPrefix)) path /\
     (isValidPartitionName name = true -> parse path = Ok (name, action, None))).
Proof.
  intros Hfirst Hidx.
  destruct Hfirst as [(pre & post & -> & Hlen) Hmin]. subst idx.
  assert (Spec.first_occurrence camliPrefix (pre +:+ camliPrefix +:+ post)
                                (String.length pre)) as Hfirst.
  { split; [now exists pre, post | exact Hmin]. }
  pose proof (parse_located pre post Hfirst) as Hparse.
  assert ((len pre =? 0) = false) as Hnz by (apply Z.eqb_neq; unfold len; lia).
  rewrite Hnz in Hparse. split.
  - intros Hno. apply HasPrefix_false in Hno. rewrite Hno in Hparse.
    now exists "", post.
  - intros Hpart.
    destruct (marker_after_partitionPrefix pre post Hpart Hidx) as [name ->].
    apply HasPrefix_begins_with in Hpart. rewrite Hpart in Hparse. simpl negb in Hparse.
    rewrite append_assoc in Hparse.
    rewrite len_append, slice_middle, bind_Ok in Hparse.
    exists name, post. rewrite append_assoc. repeat split.
    + rewrite length_append, Nat.add_comm, Nat.add_sub.
      rewrite substring_skip. symmetry. apply substring_head.
    + rewrite <- !append_assoc.
      rewrite <- (length_append _ camliPrefix).
      rewrite (length_append _ post), Nat.add_comm, Nat.add_sub.
      rewrite substring_skip. symmetry. apply substring_whole.
    + intros Hvalid. rewrite Hvalid in Hparse. exact Hparse.
Qed.

(** C4: a path whose first occurrence of the marker is at index 0 is
    ["/camli/" ++ action]; the parse returns the empty partition name,
    [action] (all that follows the marker, later occurrences of the marker
    included) and no error. *)
Theorem parseCamliPath_main (path : string) :
  Spec.first_occurrence camliPrefix path 0 ->
  exists action,
    path = camliPrefix +:+ action /\ parse path = Ok ("", action, None).
Proof.
  intros Hfirst.
  destruct (Hfirst) as [(pre & post & Heq & Hlen) _].
  destruct pre; [|discriminate]. rewrite append_nil_l in Heq. subst path.
  exists post. split; [reflexivity|].
  exact (parse_located "" post Hfirst).
Qed.

(** C5: a path in which the marker "/camli/" occurs nowhere fails with
    [InvalidCamliPath]. *)
Theorem parseCamliPath_no_marker (path : string) :
  Spec.absent camliPrefix path ->
  parse path = Ok ("", "", Some InvalidCamliPath).
Proof.
  intros Habs. apply Index_absent in Habs.
  unfold parseCamliPath. now rewrite Habs.
Qed.

End PathGrammarFacts.

(** The three cases of the grammar on the specification's examples. *)

Lemma parseCamliPath_partition_witness :
  Spec.first_occurrence camliPrefix "/partition-foo/camli/stat" 14 /\
  (0 < 14)%nat /\
  parseCamliPath Reference.isValidPartitionName "/partition-foo/camli/stat"
  = Ok ("foo", "stat", None).
Proof.
  assert (Spec.first_occurrence camliPrefix "/partition-foo/camli/stat" 14) as Hfirst
    by (apply Index_first_occurrence; reflexivity).
  assert (0 < 14)%nat as Hpos by lia.
  split; [exact Hfirst|]. split; [exact Hpos|].
  destruct (parseCamliPath_partition Reference.isValidPartitionName
              "/partition-foo/camli/stat" 14 Hfirst Hpos) as [_ Hyes].
  destruct Hyes as (name & action & _ & _ & -> & -> & Hparse).
  - now exists "foo/camli/stat".
  - apply Hparse. reflexivity.
Defined.

Lemma parseCamliPath_main_witness :
  Spec.first_occurrence camliPrefix "/camli//camli/stat" 0 /\
  exists action,
    "/camli//camli/stat" = camliPrefix +:+ action /\
    parseCamliPath Reference.isValidPartitionName "/camli//camli/stat"
    = Ok ("", action, None).
Proof.
  assert (Spec.first_occurrence camliPrefix "/camli//camli/stat" 0) as Hfirst
    by (apply Index_first_occurrence; reflexivity).
  split; [exact Hfirst|].
  exact (parseCamliPath_main Reference.isValidPartitionName "/camli//camli/stat" Hfirst).
Defined.

Lemma parseCamliPath_no_marker_witness :
  Spec.absent camliPrefix "/nonsense" /\
  parseCamliPath Reference.isValidPartitionName "/nonsense"
  = Ok ("", "", Some InvalidCamliPath).
Proof.
  assert (Spec.absent camliPrefix "/nonsense") as Habs
    by (apply Index_absent; reflexivity).
  split; [exact Habs|].
  exact (parseCamliPath_no_marker Reference.isValidPartitionName "/nonsense" Habs).
Defined.

(** ** The partition registry *)

Section RegistryFacts.

Context {Storage : Type}.
Implicit Types g : Globals Storage.

Lemma alter_last (f : partitionConfig -> partitionConfig)
      (h : list partitionConfig) (x : partitionConfig) :
  alter f (length h) (h ++ [x])%list = (h ++ [f x])%list.
Proof.
  replace (length h) with (length h + 0)%nat by lia.
  now rewrite alter_app_r.
Qed.

(** One turn of the loop on a name that is not a key of the map: a
    struct is allocated for it and appended to the mirrors of the main
    partition; the map is left as it was. *)
Lemma setupMirrorPartitions_loop_step (partName : string) (rest : list string) g :
  queuePartitionMap g !! partName = None ->
  setupMirrorPartitions_loop (partName :: rest) g =
  setupMirrorPartitions_loop rest
    (mkGlobals
       (set_mirrors (mirrors (mainPartition_obj g) ++ [alloc (length (heap g))])%list
                    (mainPartition_obj g))
       (heap g ++ [mkPartitionConfig partName false true true []
                     (urlbase (mainPartition_obj g) +:+ "/partition-" +:+ partName)])%list
       (queuePartitionMap g) (storage g)).
Proof.
  intros Hnew. cbn [setupMirrorPartitions_loop]. rewrite Hnew.
  unfold new_partitionConfig, update. cbn [heap mainPartition_obj queuePartitionMap storage].
  rewrite alter_last. reflexivity.
Qed.

Lemma setupMirrorPartitions_loop_dup (partName : string) (rest : list string) g :
  is_Some (queuePartitionMap g !! partName) ->
  setupMirrorPartitions_loop (partName :: rest) g =
  Fatal "Duplicate partition in --queue-partitions".
Proof. intros [p Hp]. cbn [setupMirrorPartitions_loop]. now rewrite Hp. Qed.

(** The loop never stores into [queuePartitionMap]. *)
Lemma setupMirrorPartitions_loop_map (names : list string) : forall g g',
  setupMirrorPartitions_loop names g = Continue g' ->
  queuePartitionMap g' = queuePartitionMap g.
Proof.
  induction names as [|partName rest IH]; intros g g' Hrun.
  - now injection Hrun as <-.
  - destruct (queuePartitionMap g !! partName) eqn:Hlook.
    + rewrite setupMirrorPartitions_loop_dup in Hrun by eauto. discriminate.
    + rewrite setupMirrorPartitions_loop_step in Hrun by assumption.
      now apply IH in Hrun.
Qed.

(** After [setupMirrorPartitions] the only key added to the map is the
    empty name of the main partition. *)
Lemma setupMirrorPartitions_map (flagQueuePartitions : string) g g' :
  setupMirrorPartitions flagQueuePartitions g = Continue g' ->
  queuePartitionMap g' = <["" := mainPartition]> (queuePartitionMap g).
Proof.
  unfold setupMirrorPartitions.
  destruct (String.eqb flagQueuePartitions "").
  - now intros [= <-].
  - intros Hrun. now apply setupMirrorPartitions_loop_map in Hrun.
Qed.

(** The loop ends the process exactly when some name of the list is
    already a key of the map it started with. *)
Lemma setupMirrorPartitions_loop_Fatal (names : list string) : forall g,
  (exists msg, setupMirrorPartitions_loop names g = Fatal msg) <->
  Exists (fun partName => is_Some (queuePartitionMap g !! partName)) names.
Proof.
  induction names as [|partName rest IH]; intros g.
  - simpl. rewrite Exists_nil. split; [intros [msg H]; discriminate | tauto].
  - rewrite Exists_cons.
    destruct (queuePartitionMap g !! partName) eqn:Hlook.
    + rewrite setupMirrorPartitions_loop_dup by eauto. split; eauto.
    + rewrite setupMirrorPartitions_loop_step by assumption.
      rewrite IH. cbn [queuePartitionMap]. split; [tauto|].
      intros [Hsome|H]; [destruct Hsome; discriminate | exact H].
Qed.

End RegistryFacts.

Section MirrorFacts.

Context {Storage : Type}.
Implicit Types g : Globals Storage.

Lemma setupMirrorPartitions_nonempty (flagQueuePartitions : string) g :
  flagQueuePartitions <> "" ->
  setupMirrorPartitions flagQueuePartitions g =
  setupMirrorPartitions_loop (strings_Split flagQueuePartitions ",")
                             (map_store "" mainPartition g).
Proof.
  intros Hne. unfold setupMirrorPartitions.
  apply String.eqb_neq in Hne. now rewrite Hne.
Qed.

(** What the loop does on two names that are not keys of the map. *)
Lemma setupMirrorPartitions_two (flagQueuePartitions x y : string) g :
  flagQueuePartitions <> "" ->
  strings_Split flagQueuePartitions "," = [x; y] ->
  x <> "" -> y <> "" ->
  queuePartitionMap g !! x = None ->
  queuePartitionMap g !! y = None ->
  setupMirrorPartitions flagQueuePartitions g =
  Continue
    (mkGlobals
       (set_mirrors
          (mirrors (mainPartition_obj g)
             ++ [alloc (length (heap g)); alloc (S (length (heap g)))])%list
          (mainPartition_obj g))
       (heap g
          ++ [mkPartitionConfig x false true true []
                (urlbase (mainPartition_obj g) +:+ "/partition-" +:+ x);
              mkPartitionConfig y false true true []
                (urlbase (mainPartition_obj g) +:+ "/partition-" +:+ y)])%list
       (<["" := mainPartition]> (queuePartitionMap g))
       (storage g)).
Proof.
  intros Hne Hsplit Hx Hy Hlx Hly.
  rewrite setupMirrorPartitions_nonempty, Hsplit by assumption.
  rewrite setupMirrorPartitions_loop_step
    by (cbn [map_store queuePartitionMap]; now rewrite lookup_insert_ne).
  rewrite setupMirrorPartitions_loop_step
    by (cbn [map_store queuePartitionMap]; now rewrite lookup_insert_ne).
  cbn [setupMirrorPartitions_loop map_store mainPartition_obj heap queuePartitionMap
       storage set_mirrors mirrors name writable readable queue urlbase].
  rewrite length_app, Nat.add_1_r, <- !app_assoc. reflexivity.
Qed.

(** C6: from the configuration string "a,b", with neither name a key of
    the map, [setupMirrorPartitions] goes on (no fatal error) and appends
    exactly two freshly allocated partitions to the mirrors of the main
    partition: one named "a", one named "b", each with writable = false,
    readable = true, queue = true, no mirrors of its own, and urlbase the
    main partition's urlbase followed by "/partition-" and the name. *)
Theorem setupMirrorPartitions_a_b g :
  queuePartitionMap g !! "a" = None ->
  queuePartitionMap g !! "b" = None ->
  exists g' pa pb,
    setupMirrorPartitions "a,b" g = Continue g' /\
    mirrors (mainPartition_obj g') = (mirrors (mainPartition_obj g) ++ [pa; pb])%list /\
    deref g pa = None /\ deref g pb = None /\ pa <> pb /\
    deref g' pa =
      Some (mkPartitionConfig "a" false true true []
              (urlbase (mainPartition_obj g) +:+ "/partition-" +:+ "a")) /\
    deref g' pb =
      Some (mkPartitionConfig "b" false true true []
              (urlbase (mainPartition_obj g) +:+ "/partition-" +:+ "b")) /\
    length (heap g') = (length (heap g) + 2)%nat /\
    urlbase (mainPartition_obj g') = urlbase (mainPartition_obj g).
Proof.
  intros Ha Hb.
  eexists _, (alloc (length (heap g))), (alloc (S (length (heap g)))).
  split.
  { apply (setupMirrorPartitions_two "a,b" "a" "b");
      [discriminate | reflexivity | discriminate | discriminate | assumption | assumption]. }
  cbn [mainPartition_obj heap set_mirrors mirrors urlbase deref].
  repeat split.
  - apply lookup_ge_None_2. lia.
  - apply lookup_ge_None_2. lia.
  - intros [= H]. lia.
  - now rewrite (list_lookup_middle (heap g) _ _ (length (heap g))).
  - rewrite (cons_middle _ (heap g)), app_assoc.
    rewrite (list_lookup_middle _ [] _ (S (length (heap g)))); [reflexivity|].
    rewrite length_app. simpl. lia.
  - rewrite length_app. reflexivity.
Qed.

End MirrorFacts.

Lemma setupMirrorPartitions_a_b_witness :
  queuePartitionMap (init_Globals "/tmp/camliroot") !! "a" = None /\
  queuePartitionMap (init_Globals "/tmp/camliroot") !! "b" = None /\
  exists g' pa pb,
    setupMirrorPartitions "a,b" (init_Globals "/tmp/camliroot") = Continue g' /\
    mirrors (mainPartition_obj g') = [pa; pb] /\
    deref g' pa =
      Some (mkPartitionConfig "a" false true true [] "http://localhost/partition-a") /\
    deref g' pb =
      Some (mkPartitionConfig "b" false true true [] "http://localhost/partition-b").
Proof.
  assert (queuePartitionMap (init_Globals "/tmp/camliroot") !! "a" = None) as Ha
    by reflexivity.
  assert (queuePartitionMap (init_Globals "/tmp/camliroot") !! "b" = None) as Hb
    by reflexivity.
  split; [exact Ha|]. split; [exact Hb|].
  destruct (setupMirrorPartitions_a_b (init_Globals "/tmp/camliroot") Ha Hb)
    as (g' & pa & pb & Hrun & Hmirrors & _ & _ & _ & Hpa & Hpb & _).
  exists g', pa, pb. repeat split; assumption.
Defined.

Section DuplicateNames.

Context {Storage : Type}.

(** C1 (what the code does): started with the configuration string
    "a,a", the registry is built without a fatal error and the main
    partition gets two mirrors that are both named "a"; started with the
    distinct names "a,b", neither name is a key of the map afterwards:
    the map holds the main partition under the empty name only.  The loop
    tests each name against [queuePartitionMap] but never stores a mirror
    in it. *)
Theorem setupMirrorPartitions_duplicate_not_fatal (baseURL : string) (s : Storage) :
  (exists g,
     commandLineConfigurationMain_registry "a,a" baseURL s = Continue g /\
     mirrors (mainPartition_obj g) = [alloc 0; alloc 1] /\
     name <$> deref g (alloc 0) = Some "a" /\
     name <$> deref g (alloc 1) = Some "a") /\
  (exists g,
     commandLineConfigurationMain_registry "a,b" baseURL s = Continue g /\
     queuePartitionMap g !! "" = Some mainPartition /\
     queuePartitionMap g !! "a" = None /\
     queuePartitionMap g !! "b" = None).
Proof.
  unfold commandLineConfigurationMain_registry. split.
  - eexists. split.
    + apply (setupMirrorPartitions_two "a,a" "a" "a");
        [discriminate | reflexivity | discriminate | discriminate
        | reflexivity | reflexivity].
    + repeat split.
  - eexists. split.
    + apply (setupMirrorPartitions_two "a,b" "a" "b");
        [discriminate | reflexivity | discriminate | discriminate
        | reflexivity | reflexivity].
    + repeat split.
Qed.

(** The only fatal outcome of the loop from the startup state is an empty
    name in the list. *)
Lemma startup_Fatal_iff (flagQueuePartitions baseURL : string) (s : Storage) :
  (exists msg,
     commandLineConfigurationMain_registry flagQueuePartitions baseURL s = Fatal msg) <->
  flagQueuePartitions <> "" /\ In "" (strings_Split flagQueuePartitions ",").
Proof.
  unfold commandLineConfigurationMain_registry, setupMirrorPartitions.
  destruct (String.eqb_spec flagQueuePartitions "") as [->|Hne].
  - split; [intros [msg H]; discriminate | tauto].
  - rewrite setupMirrorPartitions_loop_Fatal, Exists_exists.
    split.
    + intros (x & Hin & Hsome). split; [assumption|].
      cbn [map_store queuePartitionMap update init_Globals] in Hsome.
      destruct (decide (x = "")) as [->|Hx].
      * now apply list_elem_of_In.
      * rewrite lookup_insert_ne, lookup_empty in Hsome by congruence.
        now destruct Hsome.
    + intros [_ Hin]. exists "". split; [now apply list_elem_of_In|].
      cbn [map_store queuePartitionMap update init_Globals].
      rewrite lookup_insert_eq. eauto.
Qed.

(** From the startup state, no name but the empty one is ever a key of
    the map. *)
Lemma startup_registry_lookup
      (flagQueuePartitions baseURL : string) (s : Storage) (g : Globals Storage) :
  commandLineConfigurationMain_registry flagQueuePartitions baseURL s = Continue g ->
  queuePartitionMap g = {["" := mainPartition]}.
Proof.
  unfold commandLineConfigurationMain_registry. intros Hrun.
  apply setupMirrorPartitions_map in Hrun. rewrite Hrun. reflexivity.
Qed.

End DuplicateNames.

(** ** The dispatcher *)

Section DispatcherFacts.

Context {Storage : Type} `{!Handlers Storage}.

Lemma handler_GET (action : string) (partition : ptr) (storage : Storage) :
  handleCamliUsingStorage_handler "GET" action partition storage =
  if String.eqb action "enumerate-blobs"
  then auth_RequireAuth (handlers_CreateEnumerateHandler storage partition)
  else if String.eqb action "stat"
  then auth_RequireAuth (handlers_CreateStatHandler storage partition)
  else handlers_CreateGetHandler storage.
Proof. reflexivity. Qed.

Lemma handler_table (method action : string) (partition : ptr) (storage : Storage) :
  handleCamliUsingStorage_handler method action partition storage =
  Spec.table_handler method action partition storage.
Proof.
  unfold handleCamliUsingStorage_handler, Spec.table_handler, Spec.table_lookup,
    Spec.dispatch_table, Spec.row_matches.
  cbn [find Spec.row_method Spec.row_action Spec.row_auth Spec.row_behaviour].
  destruct (String.eqb_spec method "GET") as [->|_];
    [|destruct (String.eqb_spec method "POST") as [->|_];
      [|destruct (String.eqb_spec method "PUT") as [->|_]]];
    cbn [String.eqb Ascii.eqb Bool.eqb andb];
    destruct (String.eqb action "enumerate-blobs"), (String.eqb action "stat"),
      (String.eqb action "upload"), (String.eqb action "remove"); reflexivity.
Qed.

Lemma handler_unmatched (method action : string) (partition : ptr) (storage : Storage) :
  ~ Spec.in_table method action ->
  handleCamliUsingStorage_handler method action partition storage = unsupportedHandler.
Proof.
  unfold Spec.in_table. intros Hout.
  unfold handleCamliUsingStorage_handler.
  destruct (String.eqb_spec method "GET") as [->|_]; [tauto|].
  destruct (String.eqb_spec method "PUT") as [->|_]; [tauto|].
  destruct (String.eqb_spec method "POST") as [->|_]; [|reflexivity].
  destruct (String.eqb_spec action "stat") as [->|_]; [tauto|].
  destruct (String.eqb_spec action "upload") as [->|_]; [tauto|].
  destruct (String.eqb_spec action "remove") as [->|_]; [tauto|].
  reflexivity.
Qed.

(** C2: the dispatcher runs, on the request, exactly the handler the
    dispatch table gives for the request's method and the action.  Its
    trace is the request log line (when [--reqlog] is set) followed by the
    trace of that handler: for GET enumerate-blobs, GET stat, POST stat,
    POST upload, POST remove and PUT (with any action) the matching backend
    handler wrapped by [auth.RequireAuth]; for GET with any other action
    the blob-get handler, not wrapped; for every pair outside the table
    [unsupportedHandler], whose trace is the client error
    "Unsupported camlistore path or method." and nothing else. *)
Theorem dispatch_table_complete
        (flagRequestLog : bool) (req : Request) (action : string)
        (partition : ptr) (storage : Storage) :
  let logged :=
    if flagRequestLog
    then [log_Printf "method %q; partition %q; action %q"
                     [arg_string (Method req); arg_partition partition;
                      arg_string action]]
    else [] in
  let runs (h : Handler) :=
    handleCamliUsingStorage_handler (Method req) action partition storage = h /\
    handleCamliUsingStorage flagRequestLog req action partition storage
    = (logged ++ h req)%list in
  runs (Spec.table_handler (Method req) action partition storage) /\
  (Method req = "GET" -> action = "enumerate-blobs" ->
   runs (auth_RequireAuth (handlers_CreateEnumerateHandler storage partition))) /\
  (Method req = "GET" -> action = "stat" ->
   runs (auth_RequireAuth (handlers_CreateStatHandler storage partition))) /\
  (Method req = "GET" -> action <> "enumerate-blobs" -> action <> "stat" ->
   runs (handlers_CreateGetHandler storage)) /\
  (Method req = "POST" -> action = "stat" ->
   runs (auth_RequireAuth (handlers_CreateStatHandler storage partition))) /\
  (Method req = "POST" -> action = "upload" ->
   runs (auth_RequireAuth (handlers_CreateUploadHandler storage partition))) /\
  (Method req = "POST" -> action = "remove" ->
   runs (auth_RequireAuth (handlers_CreateRemoveHandler storage partition))) /\
  (Method req = "PUT" ->
   runs (auth_RequireAuth (handlers_CreateNonStandardPutHandler storage partition))) /\
  (~ Spec.in_table (Method req) action ->
   runs unsupportedHandler /\
   handleCamliUsingStorage flagRequestLog req action partition storage
   = (logged ++ [httputil_BadRequestError "Unsupported camlistore path or method."])%list).
Proof.
  cbv zeta.
  assert (Hrun : forall h,
             handleCamliUsingStorage_handler (Method req) action partition storage = h ->
             handleCamliUsingStorage_handler (Method req) action partition storage = h /\
             handleCamliUsingStorage flagRequestLog req action partition storage
             = ((if flagRequestLog
                 then [log_Printf "method %q; partition %q; action %q"
                                  [arg_string (Method req); arg_partition partition;
                                   arg_string action]]
                 else []) ++ h req)%list).
  { intros h Hh. split; [exact Hh|]. unfold handleCamliUsingStorage. now rewrite Hh. }
  split; [apply Hrun, handler_table|].
  repeat match goal with |- _ /\ _ => split end.
  - intros Hm ->. apply Hrun. now rewrite Hm.
  - intros Hm ->. apply Hrun. now rewrite Hm.
  - intros Hm Hne Hns. apply Hrun. rewrite Hm, handler_GET.
    apply String.eqb_neq in Hne, Hns. now rewrite Hne, Hns.
  - intros Hm ->. apply Hrun. now rewrite Hm.
  - intros Hm ->. apply Hrun. now rewrite Hm.
  - intros Hm ->. apply Hrun. now rewrite Hm.
  - intros Hm. apply Hrun. now rewrite Hm.
  - intros Hout. split; [now apply Hrun, handler_unmatched|].
    apply (Hrun unsupportedHandler), handler_unmatched, Hout.
Qed.

(** Running the dispatcher: the optional request log line, then the
    selected handler on the request. *)
Lemma handleCamliUsingStorage_run (flagRequestLog : bool) (req : Request)
      (action : string) (partition : ptr) (storage : Storage) :
  handleCamliUsingStorage flagRequestLog req action partition storage =
  ((if flagRequestLog
    then [log_Printf "method %q; partition %q; action %q"
                     [arg_string (Method req); arg_partition partition;
                      arg_string action]]
    else [])
     ++ Spec.table_handler (Method req) action partition storage req)%list.
Proof. unfold handleCamliUsingStorage. now rewrite handler_table. Qed.

End DispatcherFacts.

Lemma dispatch_table_complete_witness :
  handleCamliUsingStorage true (mkRequest "POST" "/partition-queue-indexer/camli/upload")
                          "upload" (alloc 0) "/tmp/camliroot"
  = [log_Printf "method %q; partition %q; action %q"
                [arg_string "POST"; arg_partition (alloc 0); arg_string "upload"];
     backend op_upload; respond "/tmp/camliroot"] /\
  handleCamliUsingStorage false (mkRequest "GET" "/camli/sha1-0a")
                          "sha1-0a" mainPartition "/tmp/camliroot"
  = [backend op_fetch; respond "/tmp/camliroot"] /\
  handleCamliUsingStorage false (mkRequest "DELETE" "/camli/remove")
                          "remove" mainPartition "/tmp/camliroot"
  = [httputil_BadRequestError "Unsupported camlistore path or method."].
Proof.
  split; [|split].
  - destruct (dispatch_table_complete
                true (mkRequest "POST" "/partition-queue-indexer/camli/upload")
                "upload" (alloc 0) "/tmp/camliroot")
      as (_ & _ & _ & _ & _ & Hupload & _).
    exact (proj2 (Hupload eq_refl eq_refl)).
  - destruct (dispatch_table_complete
                false (mkRequest "GET" "/camli/sha1-0a") "sha1-0a" mainPartition
                "/tmp/camliroot")
      as (_ & _ & _ & Hget & _).
    refine (proj2 (Hget eq_refl _ _)); discriminate.
  - destruct (dispatch_table_complete
                false (mkRequest "DELETE" "/camli/remove") "remove" mainPartition
                "/tmp/camliroot")
      as (_ & _ & _ & _ & _ & _ & _ & _ & Hout).
    refine (proj2 (Hout _)).
    unfold Spec.in_table. intros [H|[H|[H _]]]; discriminate.
Defined.

(** ** Request handling *)

Section HandlerFacts.

Context {Storage : Type} `{!Handlers Storage}.
Variable flagRequestLog : bool.
Variable isValidPartitionName : string -> bool.

Local Abbreviation parse := (parseCamliPath isValidPartitionName).
Local Abbreviation camli := (handleCamli flagRequestLog isValidPartitionName).
Local Abbreviation pick := (pickPartitionHandlerMaybe flagRequestLog isValidPartitionName).
Local Abbreviation indexer :=
  (makeIndexHandler_closure flagRequestLog isValidPartitionName).

(** C9: the pre-mux hook claims a request exactly when its raw path
    begins with "/partition-"; it then hands the request to
    [handleCamli]; for every other path it returns no handler and
    declines to intercept. *)
Theorem pickPartitionHandlerMaybe_intercepts (g : Globals Storage) (req : Request) :
  (snd (pick g req) = true <-> Spec.begins_with partitionPrefix (URL_Path req)) /\
  (Spec.begins_with partitionPrefix (URL_Path req) ->
   pick g req = (Some (camli g), true)) /\
  (~ Spec.begins_with partitionPrefix (URL_Path req) ->
   pick g req = (None, false)).
Proof.
  unfold pickPartitionHandlerMaybe.
  destruct (strings_HasPrefix (URL_Path req) partitionPrefix) eqn:Hp; simpl.
  - apply HasPrefix_begins_with in Hp. tauto.
  - apply HasPrefix_false in Hp. repeat split; try tauto. discriminate.
Qed.

(** C8: POST /partition-unknown/camli/upload, with "unknown" a valid
    partition name that is not a key of the registry, is answered with
    the client error "Unconfigured partition." and nothing else happens:
    no handler runs, so the trace has no backend operation. *)
Theorem unknown_partition_unconfigured (g : Globals Storage) :
  isValidPartitionName "unknown" = true ->
  queuePartitionMap g !! "unknown" = None ->
  camli g (mkRequest "POST" "/partition-unknown/camli/upload")
  = ([httputil_BadRequestError "Unconfigured partition."], Ok tt) /\
  Forall (fun e => is_backend e = false)
         (fst (camli g (mkRequest "POST" "/partition-unknown/camli/upload"))).
Proof.
  intros Hvalid Hlook.
  assert (parse "/partition-unknown/camli/upload" = Ok ("unknown", "upload", None))
    as Hparse.
  { unfold parseCamliPath.
    change (strings_Index "/partition-unknown/camli/upload" camliPrefix) with 18.
    change (slice_from "/partition-unknown/camli/upload" (18 + len camliPrefix))
      with (@Ok string "upload").
    change (slice "/partition-unknown/camli/upload" (len partitionPrefix) 18)
      with (@Ok string "unknown").
    change (strings_HasPrefix "/partition-unknown/camli/upload" partitionPrefix)
      with true.
    rewrite !bind_Ok. simpl. now rewrite Hvalid. }
  assert (camli g (mkRequest "POST" "/partition-unknown/camli/upload")
          = ([httputil_BadRequestError "Unconfigured partition."], Ok tt)) as Hrun.
  { unfold handleCamli. cbn [URL_Path]. rewrite Hparse, Hlook. reflexivity. }
  split; [exact Hrun|]. rewrite Hrun. repeat constructor.
Qed.

(** The default configuration names one queue partition, "queue-indexer";
    a request to it is answered "Unconfigured partition.", as the startup
    code left the map with the main partition only. *)
Lemma default_queue_partition_unconfigured (baseURL : string) (s : Storage)
      (g : Globals Storage) :
  isValidPartitionName "queue-indexer" = true ->
  commandLineConfigurationMain_registry "queue-indexer" baseURL s = Continue g ->
  camli g (mkRequest "GET" "/partition-queue-indexer/camli/enumerate-blobs")
  = ([httputil_BadRequestError "Unconfigured partition."], Ok tt).
Proof.
  intros Hvalid Hrun. apply startup_registry_lookup in Hrun.
  assert (parse "/partition-queue-indexer/camli/enumerate-blobs"
          = Ok ("queue-indexer", "enumerate-blobs", None)) as Hparse.
  { unfold parseCamliPath.
    change (strings_Index "/partition-queue-indexer/camli/enumerate-blobs" camliPrefix)
      with 24.
    change (slice_from "/partition-queue-indexer/camli/enumerate-blobs"
                       (24 + len camliPrefix))
      with (@Ok string "enumerate-blobs").
    change (slice "/partition-queue-indexer/camli/enumerate-blobs"
                  (len partitionPrefix) 24)
      with (@Ok string "queue-indexer").
    change (strings_HasPrefix "/partition-queue-indexer/camli/enumerate-blobs"
                              partitionPrefix)
      with true.
    rewrite !bind_Ok. simpl. now rewrite Hvalid. }
  unfold handleCamli. cbn [URL_Path]. rewrite Hparse, Hrun.
  rewrite lookup_singleton_ne by discriminate. reflexivity.
Qed.

(** The closure on a path under the mount prefix. *)
Lemma indexer_under_prefix (partition : ptr) (storage : Storage)
      (method sub : string) :
  indexer partition storage (mkRequest method ("/indexer" +:+ sub)) =
  match parse sub with
  | Panic msg => ([], Panic msg)
  | Ok (_, action, Some _) =>
      ([log_Printf "Invalid request for method %q, path %q"
                   [arg_string method; arg_string ("/indexer" +:+ sub)];
        httputil_BadRequestError "Unsupported camlistore path or method."],
       Ok tt)
  | Ok (_, action, None) =>
      (log_Printf "INDEXER action %s on partition %q"
                  [arg_string action; arg_partition partition]
         :: handleCamliUsingStorage flagRequestLog
              (mkRequest method ("/indexer" +:+ sub)) action partition storage,
       Ok tt)
  end.
Proof.
  unfold makeIndexHandler_closure. cbn [URL_Path Method].
  assert (strings_HasPrefix ("/indexer" +:+ sub) "/indexer" = true) as ->
    by (apply HasPrefix_begins_with; now exists sub).
  cbn [negb]. rewrite (slice_from_append "/indexer" sub). reflexivity.
Qed.

(** C10: the handler returned by [makeIndexHandler] panics with "bogus
    request", writing nothing, on a path that does not begin with
    "/indexer"; on a path that does (in particular on every path that
    matches the route "/indexer/") it returns normally. *)
Theorem makeIndexHandler_panic_iff_outside_mount
        (g : Globals Storage) (storage : Storage) (req : Request) :
  (~ Spec.begins_with "/indexer" (URL_Path req) ->
   fst (makeIndexHandler flagRequestLog isValidPartitionName g storage) req
   = ([], Panic "bogus request")) /\
  (Spec.begins_with "/indexer" (URL_Path req) ->
   snd (fst (makeIndexHandler flagRequestLog isValidPartitionName g storage) req)
   = Ok tt) /\
  (Spec.begins_with "/indexer/" (URL_Path req) ->
   snd (fst (makeIndexHandler flagRequestLog isValidPartitionName g storage) req)
   = Ok tt).
Proof.
  assert (Spec.begins_with "/indexer" (URL_Path req) ->
          snd (fst (makeIndexHandler flagRequestLog isValidPartitionName g storage) req)
          = Ok tt) as Hin.
  { intros [sub Hsub]. destruct req as [method path]. cbn [URL_Path] in Hsub. subst path.
    cbn [makeIndexHandler new_partitionConfig fst].
    rewrite indexer_under_prefix.
    destruct (parseCamliPath_total isValidPartitionName sub) as (pn & action & err & ->).
    now destruct err. }
  split; [|split].
  - intros Hout. apply HasPrefix_false in Hout.
    cbn [makeIndexHandler new_partitionConfig fst].
    unfold makeIndexHandler_closure. now rewrite Hout.
  - exact Hin.
  - intros [rest Hrest]. apply Hin. exists ("/" +:+ rest). exact Hrest.
Qed.

(** C7: [makeIndexHandler] allocates the partition named "indexer"
    (writable, not readable, not a queue, urlbase the main urlbase followed
    by "/indexer") and returns a handler which, on every request whose path
    begins with "/indexer", writes log lines and then does what the
    specification's mount adapter does: the rest of the path is parsed by
    [parseCamliPath], the action is dispatched through the dispatch table
    against that partition and the mounted backend whatever partition name
    was parsed, and a rest that does not parse gets the client error of
    [unsupportedHandler]. *)
Theorem makeIndexHandler_mounted (g : Globals Storage) (storage : Storage) :
  exists partition g' h,
    makeIndexHandler flagRequestLog isValidPartitionName g storage = (h, g') /\
    deref g partition = None /\
    deref g' partition =
      Some (mkPartitionConfig "indexer" true false false []
              (urlbase (mainPartition_obj g) +:+ "/indexer")) /\
    forall req,
      Spec.begins_with "/indexer" (URL_Path req) ->
      exists logs out,
        h req = ((logs ++ out)%list, Ok tt) /\
        Forall (fun e => is_log e = true) logs /\
        Spec.mounted isValidPartitionName "/indexer" partition storage req = Some out /\
        (forall sub partitionName action,
            URL_Path req = "/indexer" +:+ sub ->
            parse sub = Ok (partitionName, action, None) ->
            out = handleCamliUsingStorage_handler (Method req) action partition storage req) /\
        (forall sub partitionName action e,
            URL_Path req = "/indexer" +:+ sub ->
            parse sub = Ok (partitionName, action, Some e) ->
            out = [httputil_BadRequestError "Unsupported camlistore path or method."]).
Proof.
  exists (alloc (length (heap g))). eexists. eexists.
  split; [reflexivity|]. cbn [deref heap]. split; [|split].
  - apply lookup_ge_None_2. lia.
  - now rewrite (list_lookup_middle (heap g) [] _ (length (heap g))).
  - intros [method path] [sub Hsub]. cbn [URL_Path Method] in *. subst path.
    rewrite indexer_under_prefix. unfold Spec.mounted. cbn [URL_Path Method].
    assert (Spec.strip_prefix "/indexer" ("/indexer" +:+ sub) = Some sub) as ->
      by now apply strip_prefix_Some.
    destruct (parseCamliPath_total isValidPartitionName sub) as (pn & action & err & Hp).
    rewrite Hp. destruct err as [e|].
    + exists [log_Printf "Invalid request for method %q, path %q"
                         [arg_string method; arg_string ("/indexer" +:+ sub)]],
             [httputil_BadRequestError "Unsupported camlistore path or method."].
      repeat split.
      * repeat constructor.
      * intros sub' pn' action' Heq. apply String.app_inj in Heq. subst sub'.
        rewrite Hp. discriminate.
    + rewrite handleCamliUsingStorage_run.
      eexists (log_Printf _ _ :: (if flagRequestLog then [_] else [])), _.
      split; [rewrite app_comm_cons; reflexivity|].
      split; [destruct flagRequestLog; repeat constructor|].
      split; [reflexivity|]. split.
      * intros sub' pn' action' Heq. apply String.app_inj in Heq. subst sub'.
        rewrite Hp. intros [= _ <-]. now rewrite handler_table.
      * intros sub' pn' action' e Heq. apply String.app_inj in Heq. subst sub'.
        rewrite Hp. discriminate.
Qed.

End HandlerFacts.

(** ** The theorems on the reference deployment *)

Lemma pickPartitionHandlerMaybe_intercepts_witness :
  Spec.begins_with partitionPrefix "/partition-foo/camli/stat" /\
  pickPartitionHandlerMaybe false Reference.isValidPartitionName Reference.globals
    (mkRequest "GET" "/partition-foo/camli/stat")
  = (Some (handleCamli false Reference.isValidPartitionName Reference.globals), true) /\
  ~ Spec.begins_with partitionPrefix "/camli/stat" /\
  pickPartitionHandlerMaybe false Reference.isValidPartitionName Reference.globals
    (mkRequest "GET" "/camli/stat")
  = (None, false).
Proof.
  assert (Spec.begins_with partitionPrefix "/partition-foo/camli/stat") as Hin
    by (apply HasPrefix_begins_with; reflexivity).
  assert (~ Spec.begins_with partitionPrefix "/camli/stat") as Hout
    by (apply HasPrefix_false; reflexivity).
  split; [exact Hin|]. split.
  - apply (pickPartitionHandlerMaybe_intercepts false Reference.isValidPartitionName
             Reference.globals (mkRequest "GET" "/partition-foo/camli/stat")).
    exact Hin.
  - split; [exact Hout|].
    apply (pickPartitionHandlerMaybe_intercepts false Reference.isValidPartitionName
             Reference.globals (mkRequest "GET" "/camli/stat")).
    exact Hout.
Defined.

Lemma unknown_partition_unconfigured_witness :
  Reference.isValidPartitionName "unknown" = true /\
  queuePartitionMap Reference.globals !! "unknown" = None /\
  handleCamli false Reference.isValidPartitionName Reference.globals
    (mkRequest "POST" "/partition-unknown/camli/upload")
  = ([httputil_BadRequestError "Unconfigured partition."], Ok tt).
Proof.
  assert (Reference.isValidPartitionName "unknown" = true) as Hvalid by reflexivity.
  assert (queuePartitionMap Reference.globals !! "unknown" = None) as Hlook
    by (vm_compute; reflexivity).
  split; [exact Hvalid|]. split; [exact Hlook|].
  apply (unknown_partition_unconfigured false Reference.isValidPartitionName
           Reference.globals Hvalid Hlook).
Defined.

Lemma makeIndexHandler_panic_iff_outside_mount_witness :
  ~ Spec.begins_with "/indexer" "/index" /\
  fst (makeIndexHandler false Reference.isValidPartitionName Reference.globals "devcamlistore")
      (mkRequest "GET" "/index")
  = ([], Panic "bogus request") /\
  Spec.begins_with "/indexer/" "/indexer/camli/stat" /\
  snd (fst (makeIndexHandler false Reference.isValidPartitionName Reference.globals
              "devcamlistore")
           (mkRequest "GET" "/indexer/camli/stat"))
  = Ok tt.
Proof.
  assert (~ Spec.begins_with "/indexer" "/index") as Hout
    by (apply HasPrefix_false; reflexivity).
  assert (Spec.begins_with "/indexer/" "/indexer/camli/stat") as Hin
    by (apply HasPrefix_begins_with; reflexivity).
  split; [exact Hout|]. split.
  - apply (makeIndexHandler_panic_iff_outside_mount false Reference.isValidPartitionName
             Reference.globals "devcamlistore" (mkRequest "GET" "/index")).
    exact Hout.
  - split; [exact Hin|].
    apply (makeIndexHandler_panic_iff_outside_mount false Reference.isValidPartitionName
             Reference.globals "devcamlistore" (mkRequest "GET" "/indexer/camli/stat")).
    exact Hin.
Defined.

Lemma makeIndexHandler_mounted_witness :
  Spec.begins_with "/indexer" "/indexer/partition-foo/camli/stat" /\
  exists partition g' h out,
    makeIndexHandler false Reference.isValidPartitionName Reference.globals "devcamlistore"
    = (h, g') /\
    name <$> deref g' partition = Some "indexer" /\
    Spec.mounted Reference.isValidPartitionName "/indexer" partition "devcamlistore"
      (mkRequest "GET" "/indexer/partition-foo/camli/stat") = Some out /\
    is_backend <$> out = [true; false].
Proof.
  assert (Spec.begins_with "/indexer" "/indexer/partition-foo/camli/stat") as Hin
    by (apply HasPrefix_begins_with; reflexivity).
  split; [exact Hin|].
  destruct (makeIndexHandler_mounted false Reference.isValidPartitionName
              Reference.globals "devcamlistore")
    as (partition & g' & h & Hmk & _ & Hderef & Hreq).
  destruct (Hreq (mkRequest "GET" "/indexer/partition-foo/camli/stat") Hin)
    as (logs & out & _ & _ & Hmounted & Hok & _).
  exists partition, g', h, out. split; [exact Hmk|]. split.
  - rewrite Hderef. reflexivity.
  - split; [exact Hmounted|].
    rewrite (Hok "/partition-foo/camli/stat" "foo" "stat" eq_refl eq_refl).
    reflexivity.
Defined.


(** * Further properties *)

(** ** The path grammar as a whole *)

Section PathGrammarMore.

Variable isValidPartitionName : string -> bool.

Local Abbreviation parse := (parseCamliPath isValidPartitionName).

(** Either the marker is absent, or the path splits at its first
    occurrence. *)
Lemma marker_cases (path : string) :
  Spec.absent camliPrefix path \/
  exists pre post,
    path = pre +:+ camliPrefix +:+ post /\
    Spec.first_occurrence camliPrefix path (String.length pre).
Proof.
  destruct (Index_from_spec camliPrefix path 0)
    as [[_ Habs] | (n & _ & Hfirst)]; [now left | right].
  destruct (Hfirst) as [(pre & post & Heq & Hlen) _].
  exists pre, post. now rewrite Hlen.
Qed.

Lemma parse_main_path (action : string) :
  parse (camliPrefix +:+ action) = Ok ("", action, None).
Proof.
  assert (Spec.first_occurrence camliPrefix ("" +:+ camliPrefix +:+ action) 0) as Hfirst.
  { split; [|lia]. now exists "", action. }
  exact (parse_located isValidPartitionName "" action Hfirst).
Qed.

Lemma parse_partition_path (name action : string) :
  Spec.first_occurrence camliPrefix
    (partitionPrefix +:+ name +:+ camliPrefix +:+ action)
    (String.length (partitionPrefix +:+ name)) ->
  parse (partitionPrefix +:+ name +:+ camliPrefix +:+ action) =
  if isValidPartitionName name
  then Ok (name, action, None)
  else Ok (name, action, Some InvalidCamliPath).
Proof.
  intros Hfirst. rewrite <- append_assoc in Hfirst |- *.
  rewrite (parse_located isValidPartitionName _ action Hfirst).
  assert ((len (partitionPrefix +:+ name) =? 0) = false) as ->.
  { apply Z.eqb_neq. rewrite len_append. pose proof (len_nonneg name).
    change (len partitionPrefix) with 11. lia. }
  assert (strings_HasPrefix ((partitionPrefix +:+ name) +:+ camliPrefix +:+ action)
                            partitionPrefix = true) as ->.
  { apply HasPrefix_begins_with. exists (name +:+ camliPrefix +:+ action).
    now rewrite append_assoc. }
  cbn [negb]. rewrite append_assoc, len_append, slice_middle, bind_Ok.
  now destruct (isValidPartitionName name).
Qed.

(** X1: the parser accepts exactly the two forms of the grammar.  It
    returns [(partitionName, action)] without error if and only if the
    path is ["/camli/" ++ action] with the empty partition name, or is
    ["/partition-" ++ partitionName ++ "/camli/" ++ action] with that
    marker the first one in the path and [partitionName] accepted by
    [isValidPartitionName]. *)
Theorem parseCamliPath_success_iff (path partitionName action : string) :
  parse path = Ok (partitionName, action, None) <->
  (partitionName = "" /\ path = camliPrefix +:+ action) \/
  (path = partitionPrefix +:+ partitionName +:+ camliPrefix +:+ action /\
   Spec.first_occurrence camliPrefix path
     (String.length (partitionPrefix +:+ partitionName)) /\
   isValidPartitionName partitionName = true).
Proof.
  split.
  - intros Hparse.
    destruct (marker_cases path) as [Habs | (pre & post & -> & Hfirst)].
    { apply Index_absent in Habs. unfold parseCamliPath in Hparse.
      rewrite Habs in Hparse. discriminate. }
    rewrite (parse_located isValidPartitionName pre post Hfirst) in Hparse.
    destruct (len pre =? 0) eqn:Hz.
    { left. injection Hparse as <- <-. apply Z.eqb_eq in Hz.
      destruct pre; [now rewrite append_nil_l | discriminate]. }
    destruct (strings_HasPrefix _ partitionPrefix) eqn:Hp; [|discriminate].
    cbn [negb] in Hparse. apply HasPrefix_begins_with in Hp.
    assert (0 < String.length pre)%nat as Hpos.
    { apply Z.eqb_neq in Hz. unfold len in Hz. lia. }
    destruct (marker_after_partitionPrefix pre post Hp Hpos) as [name ->].
    rewrite append_assoc, len_append, slice_middle, bind_Ok in Hparse.
    destruct (isValidPartitionName name) eqn:Hvalid; [|discriminate].
    injection Hparse as <- <-. right.
    rewrite append_assoc in Hfirst |- *.
    split; [reflexivity | split; [exact Hfirst | first [reflexivity | assumption]]].
  - intros [[-> ->] | (-> & Hfirst & Hvalid)].
    + apply parse_main_path.
    + rewrite (parse_partition_path _ _ Hfirst). now rewrite Hvalid.
Qed.

(** X2: the three ways the parser fails, with what its named results hold
    at the early return: no marker (both strings empty); a first marker
    after something that does not begin with "/partition-" (empty name, the
    action already set); a partition name that [isValidPartitionName]
    rejects (the rejected name and the action are returned with the
    error). *)
Theorem parseCamliPath_failure_iff (path partitionName action : string) (e : os_Error) :
  parse path = Ok (partitionName, action, Some e) <->
  (Spec.absent camliPrefix path /\ partitionName = "" /\ action = "") \/
  (exists pre,
      (0 < String.length pre)%nat /\
      path = pre +:+ camliPrefix +:+ action /\
      Spec.first_occurrence camliPrefix path (String.length pre) /\
      ~ Spec.begins_with partitionPrefix path /\ partitionName = "") \/
  (path = partitionPrefix +:+ partitionName +:+ camliPrefix +:+ action /\
   Spec.first_occurrence camliPrefix path
     (String.length (partitionPrefix +:+ partitionName)) /\
   isValidPartitionName partitionName = false).
Proof.
  destruct e. split.
  - intros Hparse.
    destruct (marker_cases path) as [Habs | (pre & post & -> & Hfirst)].
    { left. split; [exact Habs|]. apply Index_absent in Habs.
      unfold parseCamliPath in Hparse. rewrite Habs in Hparse.
      now injection Hparse as <- <-. }
    right.
    rewrite (parse_located isValidPartitionName pre post Hfirst) in Hparse.
    destruct (len pre =? 0) eqn:Hz; [discriminate|].
    assert (0 < String.length pre)%nat as Hpos.
    { apply Z.eqb_neq in Hz. unfold len in Hz. lia. }
    destruct (strings_HasPrefix _ partitionPrefix) eqn:Hp; cbn [negb] in Hparse.
    + right. apply HasPrefix_begins_with in Hp.
      destruct (marker_after_partitionPrefix pre post Hp Hpos) as [name ->].
      rewrite append_assoc, len_append, slice_middle, bind_Ok in Hparse.
      destruct (isValidPartitionName name) eqn:Hvalid; [discriminate|].
      injection Hparse as <- <-.
      rewrite append_assoc in Hfirst |- *.
      split; [reflexivity | split; [exact Hfirst | first [reflexivity | assumption]]].
    + left. injection Hparse as <- <-. apply HasPrefix_false in Hp.
      exists pre.
      split; [exact Hpos | split; [reflexivity | split; [exact Hfirst | now split]]].
  - intros [(Habs & -> & ->) | [(pre & Hpos & -> & Hfirst & Hno & ->)
                               | (-> & Hfirst & Hvalid)]].
    + apply Index_absent in Habs. unfold parseCamliPath. now rewrite Habs.
    + rewrite (parse_located isValidPartitionName pre action Hfirst).
      assert ((len pre =? 0) = false) as -> by (apply Z.eqb_neq; unfold len; lia).
      apply HasPrefix_false in Hno. now rewrite Hno.
    + rewrite (parse_partition_path _ _ Hfirst). now rewrite Hvalid.
Qed.

(** In a path built from a name without slash, the marker that follows
    the name is the first one. *)
Lemma Index_from_slash_free (name post : string) : forall i,
  slash_free name = true ->
  strings_Index_from i (name +:+ camliPrefix +:+ post) camliPrefix = i + len name.
Proof.
  induction name as [|c name IH]; intros i Hfree.
  - rewrite append_nil_l, Index_from_unfold.
    assert (String.prefix camliPrefix (camliPrefix +:+ post) = true) as ->
      by (apply prefix_begins_with; now exists post).
    unfold len. simpl. lia.
  - simpl in Hfree. apply andb_true_iff in Hfree as [Hc Hfree].
    apply negb_true_iff, Ascii.eqb_neq in Hc.
    rewrite append_cons, Index_from_unfold.
    assert (String.prefix camliPrefix (String c (name +:+ camliPrefix +:+ post)) = false)
      as ->.
    { destruct (String.prefix camliPrefix _) eqn:Hp; [|reflexivity].
      apply prefix_begins_with in Hp as [rest Hrest].
      change (camliPrefix +:+ rest) with (String "/" ("camli/" +:+ rest)) in Hrest.
      congruence. }
    rewrite IH by assumption. unfold len. simpl String.length. lia.
Qed.

Lemma first_occurrence_slash_free (name action : string) :
  slash_free name = true ->
  Spec.first_occurrence camliPrefix
    (partitionPrefix +:+ name +:+ camliPrefix +:+ action)
    (String.length (partitionPrefix +:+ name)).
Proof.
  intros Hfree. apply Index_first_occurrence.
  unfold strings_Index, partitionPrefix.
  rewrite !append_cons, append_nil_l.
  do 11 (rewrite Index_from_unfold;
         match goal with
         | |- context [String.prefix camliPrefix ?x] =>
             change (String.prefix camliPrefix x) with false
         end; cbv iota).
  rewrite Index_from_slash_free by assumption.
  rewrite !append_nil_l. unfold len. simpl String.length. lia.
Qed.

(** X3: formatting and parsing a partition path round-trip.  For a name
    without slash that [isValidPartitionName] accepts, and any action (it
    may contain the marker again), the path
    ["/partition-" ++ name ++ "/camli/" ++ action] parses to
    [(name, action)] without error. *)
Theorem parseCamliPath_format_roundtrip (name action : string) :
  slash_free name = true ->
  isValidPartitionName name = true ->
  parse (partitionPrefix +:+ name +:+ camliPrefix +:+ action) = Ok (name, action, None).
Proof.
  intros Hfree Hvalid.
  rewrite (parse_partition_path _ _ (first_occurrence_slash_free name action Hfree)).
  now rewrite Hvalid.
Qed.

End PathGrammarMore.

(** ** [strings.Split] and [strings.Join] *)

Section SplitFacts.

Lemma Split_go_unfold (sep cur : string) (c : ascii) (s : string) :
  strings_Split_go sep 0 cur (String c s) =
  if String.prefix sep (String c s)
  then cur :: strings_Split_go sep (String.length sep - 1) "" s
  else strings_Split_go sep 0 (cur +:+ String c "") s.
Proof. reflexivity. Qed.

Lemma Split_go_skip (sep t cur rest : string) :
  strings_Split_go sep (String.length t) cur (t +:+ rest)
  = strings_Split_go sep 0 cur rest.
Proof.
  induction t as [|c t IH]; [now rewrite append_nil_l|].
  rewrite append_cons. simpl. exact IH.
Qed.

Lemma Split_go_nonempty (sep : string) (s : string) : forall skip cur,
  strings_Split_go sep skip cur s <> [].
Proof.
  induction s as [|c s IH]; intros skip cur; [discriminate|].
  destruct skip as [|k]; [|apply IH].
  rewrite Split_go_unfold. destruct (String.prefix sep _); [discriminate | apply IH].
Qed.

Lemma concat_cons (sep x : string) (l : list string) :
  l <> [] -> String.concat sep (x :: l) = x +:+ sep +:+ String.concat sep l.
Proof. destruct l; [congruence | reflexivity]. Qed.

Lemma Split_go_concat (sep : string) :
  sep <> "" ->
  forall n s cur,
    (String.length s <= n)%nat ->
    String.concat sep (strings_Split_go sep 0 cur s) = cur +:+ s.
Proof.
  intros Hsep. induction n as [|n IH]; intros s cur Hlen.
  - destruct s; [|simpl in Hlen; lia]. simpl. now rewrite append_empty_r.
  - destruct s as [|c s]; [simpl; now rewrite append_empty_r|].
    rewrite Split_go_unfold. destruct (String.prefix sep (String c s)) eqn:Hp.
    + apply prefix_begins_with in Hp as [rest Hrest].
      destruct sep as [|a t]; [congruence|].
      rewrite append_cons in Hrest. injection Hrest as -> ->.
      replace (String.length (String a t) - 1)%nat with (String.length t)
        by (simpl; lia).
      rewrite Split_go_skip.
      rewrite concat_cons by apply Split_go_nonempty.
      rewrite IH.
      * now rewrite append_nil_l, !append_cons.
      * simpl in Hlen. rewrite length_append in Hlen. lia.
    + rewrite IH by (simpl in Hlen; lia).
      now rewrite append_assoc, append_cons, append_nil_l.
Qed.

(** Joining the pieces with the separator gives the string back. *)
Lemma Split_concat (s sep : string) :
  sep <> "" -> String.concat sep (strings_Split s sep) = s.
Proof.
  intros Hsep. destruct sep as [|a t]; [congruence|].
  unfold strings_Split.
  now rewrite (Split_go_concat _ Hsep (String.length s)), append_nil_l.
Qed.

End SplitFacts.

(** ** The registry from any configuration string *)

Section RegistryMore.

Context {Storage : Type}.
Implicit Types g : Globals Storage.

(** What the loop leaves behind when it ends normally. *)
Lemma setupMirrorPartitions_loop_shape (names : list string) : forall g g',
  setupMirrorPartitions_loop names g = Continue g' ->
  heap g' = (heap g ++ (queue_partition (urlbase (mainPartition_obj g)) <$> names))%list /\
  mainPartition_obj g' =
    set_mirrors (mirrors (mainPartition_obj g)
                   ++ (alloc <$> seq (length (heap g)) (length names)))%list
                (mainPartition_obj g) /\
  queuePartitionMap g' = queuePartitionMap g /\
  storage g' = storage g.
Proof.
  induction names as [|partName rest IH]; intros g g' Hrun.
  - injection Hrun as <-. simpl. rewrite !app_nil_r.
    now destruct (mainPartition_obj g).
  - destruct (queuePartitionMap g !! partName) eqn:Hlook.
    { rewrite setupMirrorPartitions_loop_dup in Hrun by eauto. discriminate. }
    rewrite setupMirrorPartitions_loop_step in Hrun by assumption.
    apply IH in Hrun as (Hheap & Hmain & Hmap & Hstorage).
    cbn [heap mainPartition_obj queuePartitionMap storage set_mirrors urlbase mirrors]
      in Hheap, Hmain, Hmap, Hstorage.
    rewrite Hheap, Hmain, Hmap, Hstorage. repeat split.
    + now rewrite <- app_assoc.
    + rewrite length_app, Nat.add_1_r, <- app_assoc. reflexivity.
Qed.

Lemma setupMirrorPartitions_loop_Continue (names : list string) : forall g,
  Forall (fun partName => queuePartitionMap g !! partName = None) names ->
  exists g', setupMirrorPartitions_loop names g = Continue g'.
Proof.
  induction names as [|partName rest IH]; intros g Hall; [now exists g|].
  apply Forall_cons in Hall as [Hnew Hrest].
  rewrite setupMirrorPartitions_loop_step by assumption.
  apply IH. exact Hrest.
Qed.

Lemma setupMirrorPartitions_loop_msg (names : list string) : forall g msg,
  setupMirrorPartitions_loop names g = Fatal msg ->
  msg = "Duplicate partition in --queue-partitions".
Proof.
  induction names as [|partName rest IH]; intros g msg Hrun; [discriminate|].
  destruct (queuePartitionMap g !! partName) eqn:Hlook.
  - rewrite setupMirrorPartitions_loop_dup in Hrun by eauto. congruence.
  - rewrite setupMirrorPartitions_loop_step in Hrun by assumption. eauto.
Qed.

Lemma setupMirrorPartitions_names (flagQueuePartitions : string) g :
  setupMirrorPartitions flagQueuePartitions g =
  setupMirrorPartitions_loop (queue_partition_names flagQueuePartitions)
                             (map_store "" mainPartition g).
Proof.
  unfold setupMirrorPartitions, queue_partition_names.
  now destruct (String.eqb flagQueuePartitions "").
Qed.

(** The state in which a successful startup leaves the package-level
    variables. *)
Lemma startup_shape (flagQueuePartitions baseURL : string) (s : Storage) g :
  commandLineConfigurationMain_registry flagQueuePartitions baseURL s = Continue g ->
  heap g = queue_partition baseURL <$> queue_partition_names flagQueuePartitions /\
  mainPartition_obj g =
    mkPartitionConfig "" true true false
      (alloc <$> seq 0 (length (queue_partition_names flagQueuePartitions))) baseURL /\
  queuePartitionMap g !! "" = Some mainPartition /\
  storage g = s.
Proof.
  unfold commandLineConfigurationMain_registry. rewrite setupMirrorPartitions_names.
  intros Hrun. apply setupMirrorPartitions_loop_shape in Hrun
    as (Hheap & Hmain & Hmap & Hstorage).
  cbn in Hheap, Hmain, Hmap, Hstorage.
  rewrite Hheap, Hmain, Hmap, Hstorage.
  repeat split; try reflexivity; try apply lookup_insert_eq.
Qed.

(** X4: an empty name in the list of queue partitions (a leading, a
    trailing or a doubled comma in a non-empty configuration string) ends
    startup with the fatal message "Duplicate partition in
    --queue-partitions": the empty name is the key of the main
    partition. *)
Theorem startup_empty_name_fatal (flagQueuePartitions baseURL : string) (s : Storage) :
  flagQueuePartitions <> "" ->
  In "" (strings_Split flagQueuePartitions ",") ->
  commandLineConfigurationMain_registry flagQueuePartitions baseURL s
  = Fatal "Duplicate partition in --queue-partitions".
Proof.
  intros Hne Hin.
  destruct (commandLineConfigurationMain_registry flagQueuePartitions baseURL s)
    as [g|msg] eqn:Hrun.
  - exfalso. unfold commandLineConfigurationMain_registry in Hrun.
    rewrite setupMirrorPartitions_nonempty in Hrun by assumption.
    assert (exists msg,
               setupMirrorPartitions_loop (strings_Split flagQueuePartitions ",")
                 (map_store "" mainPartition
                    (update mainPartition (set_urlbase baseURL) (init_Globals s)))
               = Fatal msg) as [msg Hmsg].
    { apply setupMirrorPartitions_loop_Fatal, Exists_exists. exists "".
      split; [now apply list_elem_of_In|].
      cbn [map_store queuePartitionMap]. rewrite lookup_insert_eq. eauto. }
    congruence.
  - f_equal. unfold commandLineConfigurationMain_registry in Hrun.
    rewrite setupMirrorPartitions_names in Hrun.
    now apply setupMirrorPartitions_loop_msg in Hrun.
Qed.

(** X5: from a configuration string whose names are distinct and not
    empty, startup goes on and the main partition gets one mirror per name,
    in the order of the string: the n-th allocated struct is the queue
    partition of the n-th name (not writable, readable, a queue, with
    urlbase the base URL followed by "/partition-" and the name).  The main
    partition keeps its own fields, takes the base URL as urlbase and is
    stored in the map under the empty name.  An empty string gives no
    mirror. *)
Theorem startup_mirrors (flagQueuePartitions baseURL : string) (s : Storage) :
  NoDup (queue_partition_names flagQueuePartitions) ->
  ~ In "" (queue_partition_names flagQueuePartitions) ->
  exists g,
    commandLineConfigurationMain_registry flagQueuePartitions baseURL s = Continue g /\
    heap g = queue_partition baseURL <$> queue_partition_names flagQueuePartitions /\
    mainPartition_obj g =
      mkPartitionConfig "" true true false
        (alloc <$> seq 0 (length (queue_partition_names flagQueuePartitions))) baseURL /\
    (forall i partName,
        queue_partition_names flagQueuePartitions !! i = Some partName ->
        mirrors (mainPartition_obj g) !! i = Some (alloc i) /\
        deref g (alloc i) = Some (queue_partition baseURL partName)) /\
    queuePartitionMap g !! "" = Some mainPartition /\
    storage g = s.
Proof.
  intros _ Hno.
  assert (exists g,
             commandLineConfigurationMain_registry flagQueuePartitions baseURL s
             = Continue g) as [g Hrun].
  { unfold commandLineConfigurationMain_registry. rewrite setupMirrorPartitions_names.
    apply setupMirrorPartitions_loop_Continue, Forall_forall.
    intros partName Hin. cbn [map_store queuePartitionMap update init_Globals].
    rewrite lookup_insert_ne, lookup_empty; [reflexivity|].
    intros <-. apply Hno. now apply list_elem_of_In. }
  exists g. split; [exact Hrun|].
  destruct (startup_shape _ _ _ _ Hrun) as (Hheap & Hmain & Hmap & Hstorage).
  split; [exact Hheap|]. split; [exact Hmain|].
  split; [|split; [exact Hmap | exact Hstorage]].
  intros i partName Hname. split.
  - rewrite Hmain. cbn [mirrors]. rewrite list_lookup_fmap.
    rewrite lookup_seq_lt; [reflexivity|]. now apply lookup_lt_Some in Hname.
  - cbn [deref]. rewrite Hheap, list_lookup_fmap, Hname. reflexivity.
Qed.

(** X6: the configuration string can be read back from the mirrors: after
    a startup from distinct, non-empty names, the names of the allocated
    queue partitions, joined by commas in allocation order, are the
    string of [--queue-partitions]. *)
Theorem startup_names_roundtrip (flagQueuePartitions baseURL : string) (s : Storage) :
  NoDup (queue_partition_names flagQueuePartitions) ->
  ~ In "" (queue_partition_names flagQueuePartitions) ->
  exists g,
    commandLineConfigurationMain_registry flagQueuePartitions baseURL s = Continue g /\
    String.concat "," (name <$> heap g) = flagQueuePartitions.
Proof.
  intros _ Hno.
  assert (exists g,
             commandLineConfigurationMain_registry flagQueuePartitions baseURL s
             = Continue g) as [g Hrun].
  { unfold commandLineConfigurationMain_registry. rewrite setupMirrorPartitions_names.
    apply setupMirrorPartitions_loop_Continue, Forall_forall.
    intros partName Hin. cbn [map_store queuePartitionMap update init_Globals].
    rewrite lookup_insert_ne, lookup_empty; [reflexivity|].
    intros <-. apply Hno. now apply list_elem_of_In. }
  exists g. split; [exact Hrun|].
  destruct (startup_shape _ _ _ _ Hrun) as (Hheap & _).
  rewrite Hheap, <- list_fmap_compose.
  assert (name ∘ queue_partition baseURL = id) as -> by reflexivity.
  rewrite list_fmap_id. unfold queue_partition_names.
  destruct (String.eqb_spec flagQueuePartitions "") as [->|Hne]; [reflexivity|].
  now apply Split_concat.
Qed.

End RegistryMore.

Section AppendOnly.

Context {Storage : Type}.
Implicit Types g : Globals Storage.

(** X7: whatever the state it starts from, a run of
    [setupMirrorPartitions] that does not end the process only appends.
    Every struct allocated before is unchanged and new ones are queue
    partitions; the mirrors of the main partition are the old ones followed
    by pointers that were dangling before and now point to the new structs;
    the other fields of the main partition and [storage] are unchanged; the
    main partition is stored under the empty name. *)
Theorem setupMirrorPartitions_only_appends (flagQueuePartitions : string) g g' :
  setupMirrorPartitions flagQueuePartitions g = Continue g' ->
  (exists new,
      heap g' = (heap g ++ new)%list /\
      Forall (fun p => writable p = false /\ readable p = true /\ queue p = true /\
                       mirrors p = []) new) /\
  (exists added,
      mirrors (mainPartition_obj g') = (mirrors (mainPartition_obj g) ++ added)%list /\
      Forall (fun p => deref g p = None /\ is_Some (deref g' p)) added) /\
  (forall n p, heap g !! n = Some p -> deref g' (alloc n) = Some p) /\
  set_mirrors [] (mainPartition_obj g') = set_mirrors [] (mainPartition_obj g) /\
  storage g' = storage g /\
  queuePartitionMap g' !! "" = Some mainPartition.
Proof.
  rewrite setupMirrorPartitions_names.
  set (names := queue_partition_names flagQueuePartitions).
  intros Hrun. apply setupMirrorPartitions_loop_shape in Hrun
    as (Hheap & Hmain & Hmap & Hstorage).
  cbn [map_store heap mainPartition_obj queuePartitionMap storage] in *.
  split; [|split; [|split; [|split; [|split]]]].
  - eexists. split; [exact Hheap|].
    apply Forall_fmap, Forall_forall. intros partName _. unfold compose. now cbn.
  - rewrite Hmain. cbn [set_mirrors mirrors]. eexists. split; [reflexivity|].
    apply Forall_fmap, Forall_forall. intros n Hn.
    apply elem_of_seq in Hn. unfold compose. cbn [deref]. split.
    + apply lookup_ge_None_2. lia.
    + rewrite Hheap. apply lookup_lt_is_Some.
      rewrite length_app, length_fmap. lia.
  - intros n p Hp. cbn [deref]. rewrite Hheap.
    rewrite lookup_app_l by (now apply lookup_lt_Some in Hp). exact Hp.
  - now rewrite Hmain.
  - exact Hstorage.
  - rewrite Hmap. apply lookup_insert_eq.
Qed.

End AppendOnly.

(** ** Request handling as a whole *)

Section HandlerMore.

Context {Storage : Type} `{!Handlers Storage}.
Variable flagRequestLog : bool.
Variable isValidPartitionName : string -> bool.

Local Abbreviation parse := (parseCamliPath isValidPartitionName).
Local Abbreviation camli := (handleCamli flagRequestLog isValidPartitionName).
Local Abbreviation pick := (pickPartitionHandlerMaybe flagRequestLog isValidPartitionName).

(** X8: [handleCamli] returns normally on every request, and so does
    the handler that the pre-mux hook hands out: the slice expressions of
    the parser are always in range. *)
Theorem handleCamli_never_panics (g : Globals Storage) (req : Request) :
  snd (camli g req) = Ok tt /\
  (forall h, fst (pick g req) = Some h -> snd (h req) = Ok tt).
Proof.
  assert (forall g' req', snd (camli g' req') = Ok tt) as Hcamli.
  { intros g' req'. unfold handleCamli.
    destruct (parseCamliPath_total isValidPartitionName (URL_Path req'))
      as (partName & action & err & ->).
    destruct err; [reflexivity|].
    now destruct (queuePartitionMap g' !! partName). }
  split; [apply Hcamli|].
  intros h. unfold pickPartitionHandlerMaybe.
  destruct (negb _); cbn [fst]; [discriminate|].
  intros [= <-]. apply Hcamli.
Qed.

(** X9: [handleCamli] touches a storage backend only through the
    dispatcher, for a path that parses and a partition name that is a key
    of [queuePartitionMap]: when the trace of a request has a backend
    operation, the path parsed without error, the name was found in the
    map, and the trace is the one of [handleCamliUsingStorage] for that
    partition and the package-level [storage]. *)
Theorem handleCamli_backend_only_if_registered (g : Globals Storage) (req : Request) :
  Exists (fun e => is_backend e = true) (fst (camli g req)) ->
  exists partName action partition,
    parse (URL_Path req) = Ok (partName, action, None) /\
    queuePartitionMap g !! partName = Some partition /\
    fst (camli g req)
    = handleCamliUsingStorage flagRequestLog req action partition (storage g).
Proof.
  unfold handleCamli.
  destruct (parseCamliPath_total isValidPartitionName (URL_Path req))
    as (partName & action & err & ->).
  destruct err as [e|].
  - cbn [fst unsupportedHandler]. intros Hex.
    apply Exists_cons in Hex as [Hlog | Hex]; [discriminate|].
    apply Exists_cons in Hex as [Hbad | Hex]; [discriminate|].
    now apply Exists_nil in Hex.
  - destruct (queuePartitionMap g !! partName) as [partition|] eqn:Hlook.
    + intros _. now exists partName, action, partition.
    + cbn [fst]. intros Hex.
      apply Exists_cons in Hex as [Hbad | Hex]; [discriminate|].
      now apply Exists_nil in Hex.
Qed.


(** X11: a request that the pre-mux hook claims but whose path has no
    "/camli/" marker (for instance "/partition-foo") is answered by the
    claimed handler with one log line and the client error of
    [unsupportedHandler]; it never reaches a backend or the static
    routes. *)
Theorem intercepted_without_marker (g : Globals Storage) (req : Request) :
  Spec.begins_with partitionPrefix (URL_Path req) ->
  Spec.absent camliPrefix (URL_Path req) ->
  exists h,
    pick g req = (Some h, true) /\
    h req = ([log_Printf "Invalid request for method %q, path %q"
                         [arg_string (Method req); arg_string (URL_Path req)];
              httputil_BadRequestError "Unsupported camlistore path or method."],
             Ok tt).
Proof.
  intros Hin Habs. exists (camli g). split.
  - unfold pickPartitionHandlerMaybe.
    apply HasPrefix_begins_with in Hin. now rewrite Hin.
  - unfold handleCamli, parseCamliPath.
    apply Index_absent in Habs. now rewrite Habs.
Qed.

End HandlerMore.

(** ** Authentication in the dispatch *)

Section AuthCoverage.

Context {Storage : Type} `{!Handlers Storage}.

(** X12: no handler built on a partition is selected without the
    [auth.RequireAuth] decorator.  The selected handler is
    [unsupportedHandler], or the blob-get handler of the storage (for GET
    only), or [auth.RequireAuth] applied to one of the handlers made from
    the storage and the partition; for a method other than GET the second
    case does not arise. *)
Theorem dispatch_requires_auth
        (method action : string) (partition : ptr) (storage : Storage) :
  let handler := handleCamliUsingStorage_handler method action partition storage in
  (handler = unsupportedHandler \/
   (method = "GET" /\ handler = handlers_CreateGetHandler storage) \/
   exists inner,
     handler = auth_RequireAuth inner /\
     In inner [handlers_CreateEnumerateHandler storage partition;
               handlers_CreateStatHandler storage partition;
               handlers_CreateUploadHandler storage partition;
               handlers_CreateRemoveHandler storage partition;
               handlers_CreateNonStandardPutHandler storage partition]).
Proof.
  unfold handleCamliUsingStorage_handler. cbn zeta.
  destruct (String.eqb_spec method "GET") as [->|_].
  - destruct (String.eqb action "enumerate-blobs");
      [right; right; eexists; split; [reflexivity | simpl; tauto]|].
    destruct (String.eqb action "stat");
      [right; right; eexists; split; [reflexivity | simpl; tauto]|].
    right. left. now split.
  - destruct (String.eqb method "POST").
    + destruct (String.eqb action "stat");
        [right; right; eexists; split; [reflexivity | simpl; tauto]|].
      destruct (String.eqb action "upload");
        [right; right; eexists; split; [reflexivity | simpl; tauto]|].
      destruct (String.eqb action "remove");
        [right; right; eexists; split; [reflexivity | simpl; tauto]|].
      now left.
    + destruct (String.eqb method "PUT");
        [right; right; eexists; split; [reflexivity | simpl; tauto] | now left].
Qed.

End AuthCoverage.

(** ** [exitFailure] *)

Section ExitFailure.

Lemma substring_split (s : string) : forall n,
  (n <= String.length s)%nat ->
  s = substring 0 n s +:+ substring n (String.length s - n) s.
Proof.
  induction s as [|c s IH]; intros n Hn.
  - destruct n; [reflexivity | simpl in Hn; lia].
  - destruct n as [|k].
    + simpl. now rewrite substring_whole, append_nil_l.
    + simpl in Hn. simpl. rewrite append_cons. f_equal. apply IH. lia.
Qed.

(** [strings.HasSuffix] holds exactly when the string ends with the
    suffix. *)
Lemma HasSuffix_ends_with (s suffix : string) :
  strings_HasSuffix s suffix = true <-> exists body, s = body +:+ suffix.
Proof.
  unfold strings_HasSuffix. rewrite andb_true_iff, Z.leb_le, String.eqb_eq. split.
  - intros [Hlen Hsub]. unfold len in Hlen.
    exists (substring 0 (String.length s - String.length suffix) s).
    etransitivity;
      [apply (substring_split s (String.length s - String.length suffix)); lia|].
    f_equal.
    replace (String.length s - (String.length s - String.length suffix))%nat
      with (String.length suffix) by lia.
    exact Hsub.
  - intros [body ->]. split.
    + rewrite len_append. pose proof (len_nonneg body). lia.
    + rewrite length_append, Nat.add_sub, substring_skip. apply substring_whole.
Qed.

(** X13: [exitFailure] ends the process with exit code 1 after writing
    one message to standard error, whose pattern always ends with a
    newline: a pattern that already ends with a newline is written as it
    is, any other pattern is written with one newline appended. *)
Theorem exitFailure_newline {A : Type} (pattern : string) (args : list string) :
  exists written,
    Main.exitFailure (A := A) pattern args
    = Main.os_Exit 1 [Main.stderr_Fprintf written args] /\
    (exists body, written = body +:+ newline) /\
    ((exists body, pattern = body +:+ newline) -> written = pattern) /\
    (~ (exists body, pattern = body +:+ newline) -> written = pattern +:+ newline).
Proof.
  unfold Main.exitFailure.
  destruct (strings_HasSuffix pattern newline) eqn:Hsuffix; cbn [negb].
  - apply HasSuffix_ends_with in Hsuffix.
    exists pattern. split; [reflexivity|]. split; [exact Hsuffix|]. tauto.
  - exists (pattern +:+ newline). split; [reflexivity|].
    split; [now exists pattern|]. split; [|reflexivity].
    intros Hends. apply HasSuffix_ends_with in Hends. congruence.
Qed.

End ExitFailure.

(** ** Startup *)

Section MainFacts.

Context {Storage BlobRef : Type} `{!Handlers Storage}.
Variable isValidPartitionName : string -> bool.

Implicit Types (f : Main.Flags) (w : @Main.World Storage BlobRef)
         (ws : @Main.Server Storage) (g : Globals Storage).

Local Abbreviation cmdline := (Main.commandLineConfigurationMain isValidPartitionName).
Local Abbreviation camli f := (handleCamli (Main.flagRequestLog f) isValidPartitionName).
Local Abbreviation pick f :=
  (pickPartitionHandlerMaybe (Main.flagRequestLog f) isValidPartitionName).
Local Abbreviation mount f :=
  (makeIndexHandler (Main.flagRequestLog f) isValidPartitionName).
Local Abbreviation indexer_of f w owner storage :=
  (Main.mysqlindexer_Indexer w (Main.flagDatabaseName f) owner storage).

Lemma len_zero (s : string) : (len s =? 0) = true <-> s = "".
Proof.
  rewrite Z.eqb_eq. unfold len. destruct s; simpl; split; try congruence; lia.
Qed.

(** Everything that is known when [commandLineConfigurationMain] reaches
    [ws.Serve()]. *)
Lemma commandLineConfigurationMain_serve_inv f w ws g pw out :
  cmdline f w = Main.ws_Serve (ws, g, pw) out ->
  pw = Main.os_Getenv w "CAMLI_PASSWORD" /\
  pw <> "" /\
  Main.flagStorageRoot f <> "" /\
  out = [Main.startup_log_Printf "Base URL is %q" [Main.ws_BaseURL w]] /\
  exists storage g0,
    Main.localdisk_New w (Main.flagStorageRoot f) = inl storage /\
    commandLineConfigurationMain_registry
      (Main.flagQueuePartitions f) (Main.ws_BaseURL w) storage = Continue g0 /\
    Main.premux ws = [pick f] /\
    exists dev_routes,
      Main.routes ws =
        ([("/", fun _ => Main.handleRoot f); ("/camli/", camli f)]
           ++ dev_routes
           ++ [("/js/", fun _ => Main.http_FileServer w "../../clients/js" "/js/")])%list /\
      ((Main.flagDevSearch f = false /\ Main.flagDevMySql f = false /\
        dev_routes = [] /\ g = g0) \/
       (exists owner err,
           Main.flagDevSearch f || Main.flagDevMySql f = true /\
           Main.client_SignerPublicKeyBlobref w = Some owner /\
           Main.Indexer_IsAlive w (indexer_of f w owner storage) = (true, err) /\
           dev_routes =
             ((if Main.flagDevSearch f
               then [("/camli/search",
                      fun _ req =>
                        (auth_RequireAuth
                           (Main.search_CreateHandler w (indexer_of f w owner storage) owner)
                           req,
                         Ok tt))]
               else [])
                ++ (if Main.flagDevMySql f
                    then [("/indexer/",
                           fun _ => fst (mount f g0 (indexer_of f w owner storage)))]
                    else []))%list /\
           g = if Main.flagDevMySql f
               then snd (mount f g0 (indexer_of f w owner storage))
               else g0)).
Proof.
  unfold Main.commandLineConfigurationMain, Main.exitFailure, Main.serve_js.
  destruct (len (Main.os_Getenv w "CAMLI_PASSWORD") =? 0) eqn:Hpw; [discriminate|].
  destruct (String.eqb_spec (Main.flagStorageRoot f) "") as [|Hroot]; [discriminate|].
  destruct (Main.localdisk_New w (Main.flagStorageRoot f)) as [storage|err] eqn:Hdisk;
    [|discriminate].
  destruct (commandLineConfigurationMain_registry _ _ storage) as [g0|msg] eqn:Hreg;
    [|discriminate].
  assert (Main.os_Getenv w "CAMLI_PASSWORD" <> "") as Hne.
  { intros Heq. apply len_zero in Heq. congruence. }
  destruct (Main.flagDevSearch f) eqn:Hsearch, (Main.flagDevMySql f) eqn:Hmysql;
    cbn [orb].
  4: { intros [= <- <- <- <-]. repeat (split; [first [reflexivity | assumption]|]).
       exists storage, g0. repeat (split; [first [reflexivity | assumption]|]).
       exists []. split; [reflexivity|]. left. now repeat split. }
  all: destruct (Main.client_SignerPublicKeyBlobref w) as [owner|];
    [|discriminate];
    destruct (Main.Indexer_IsAlive w _) as [[|] err] eqn:Halive;
    cbn [negb]; [|discriminate];
    intros [= <- <- <- <-]; repeat (split; [first [reflexivity | assumption]|]);
    exists storage, g0; repeat (split; [first [reflexivity | assumption]|]);
    eexists; (split; [|right; exists owner, err;
                       repeat (split; [first [reflexivity | eassumption]|]);
                       reflexivity]);
    reflexivity.
Qed.

(** X14: when does the command-line configuration reach [ws.Serve()]:
    exactly when CAMLI_PASSWORD is not empty, [--root] is not empty, the
    local disk storage opens, the registry is built without a fatal error
    and, if [--devsearch] or [--devmysqlindexer] is set, the signer's
    public key is configured and the indexer is alive.  Otherwise the
    process exits with code 1. *)
Theorem commandLineConfigurationMain_serves_iff f w :
  ((exists a out, Main.commandLineConfigurationMain isValidPartitionName f w = Main.ws_Serve a out) <->
   Main.os_Getenv w "CAMLI_PASSWORD" <> "" /\
   Main.flagStorageRoot f <> "" /\
   exists storage,
     Main.localdisk_New w (Main.flagStorageRoot f) = inl storage /\
     (exists g0,
         commandLineConfigurationMain_registry
           (Main.flagQueuePartitions f) (Main.ws_BaseURL w) storage = Continue g0) /\
     (Main.flagDevSearch f || Main.flagDevMySql f = true ->
      exists owner,
        Main.client_SignerPublicKeyBlobref w = Some owner /\
        fst (Main.Indexer_IsAlive w (indexer_of f w owner storage)) = true)) /\
  (forall code out, Main.commandLineConfigurationMain isValidPartitionName f w = Main.os_Exit code out -> code = 1 /\ out <> []).
Proof.
  split; [split|].
  - intros ([[ws g] pw] & out & Hrun).
    apply commandLineConfigurationMain_serve_inv in Hrun
      as (-> & Hpw & Hroot & _ & storage & g0 & Hdisk & Hreg & _ & dev & _ & Hdev).
    split; [exact Hpw|]. split; [exact Hroot|].
    exists storage. split; [exact Hdisk|]. split; [now exists g0|].
    intros Hflags.
    destruct Hdev as [(Hs & Hm & _) | (owner & err & _ & Hkey & Halive & _)].
    + rewrite Hs, Hm in Hflags. discriminate.
    + exists owner. split; [exact Hkey|]. now rewrite Halive.
  - intros (Hpw & Hroot & storage & Hdisk & [g0 Hreg] & Hdev).
    unfold Main.commandLineConfigurationMain, Main.serve_js.
    assert ((len (Main.os_Getenv w "CAMLI_PASSWORD") =? 0) = false) as ->.
    { destruct (len _ =? 0) eqn:Hz; [|reflexivity]. now apply len_zero in Hz. }
    apply String.eqb_neq in Hroot. rewrite Hroot, Hdisk, Hreg.
    destruct (Main.flagDevSearch f || Main.flagDevMySql f) eqn:Hflags; [|eauto].
    destruct (Hdev eq_refl) as (owner & -> & Halive).
    destruct (Main.Indexer_IsAlive w _) as [ok err]. cbn [fst] in Halive. subst ok.
    cbn [negb]. destruct (Main.flagDevSearch f), (Main.flagDevMySql f); eauto.
  - intros code out. unfold Main.commandLineConfigurationMain, Main.exitFailure,
      Main.serve_js.
    repeat match goal with
           | |- context [if ?b then _ else _] => destruct b
           | |- context [match ?x with _ => _ end] => destruct x
           end;
      intros [= <- <-]; (split; [reflexivity | discriminate]).
Qed.

(** The patterns registered when [ws.Serve()] is reached. *)
Lemma served_patterns f w ws g pw out :
  cmdline f w = Main.ws_Serve (ws, g, pw) out ->
  fst <$> Main.routes ws =
    (["/"; "/camli/"]
       ++ (if Main.flagDevSearch f then ["/camli/search"] else [])
       ++ (if Main.flagDevMySql f then ["/indexer/"] else [])
       ++ ["/js/"])%list.
Proof.
  intros Hrun.
  apply commandLineConfigurationMain_serve_inv in Hrun
    as (_ & _ & _ & _ & storage & g0 & _ & _ & _ & dev & Hroutes & Hdev).
  rewrite Hroutes.
  destruct Hdev as [(-> & -> & -> & _) | (owner & err & _ & _ & _ & -> & _)];
    [reflexivity|].
  now destruct (Main.flagDevSearch f), (Main.flagDevMySql f).
Qed.

(** X15: the route table of a server started from the command line.
    The only pre-mux hook is [pickPartitionHandlerMaybe]; the registered
    patterns are, in this order, "/", "/camli/", then "/camli/search" if
    and only if [--devsearch] is set, then "/indexer/" if and only if
    [--devmysqlindexer] is set, then "/js/"; "/camli/" is served by
    [handleCamli]; the access password is the value of CAMLI_PASSWORD; the
    only output is the log line with the base URL. *)
Theorem commandLineConfigurationMain_routes f w ws g pw out :
  Main.commandLineConfigurationMain isValidPartitionName f w
  = Main.ws_Serve (ws, g, pw) out ->
  Main.premux ws
  = [pickPartitionHandlerMaybe (Main.flagRequestLog f) isValidPartitionName] /\
  fst <$> Main.routes ws =
    (["/"; "/camli/"]
       ++ (if Main.flagDevSearch f then ["/camli/search"] else [])
       ++ (if Main.flagDevMySql f then ["/indexer/"] else [])
       ++ ["/js/"])%list /\
  (forall h,
      In ("/camli/", h) (Main.routes ws) <->
      h = handleCamli (Main.flagRequestLog f) isValidPartitionName) /\
  pw = Main.os_Getenv w "CAMLI_PASSWORD" /\
  out = [Main.startup_log_Printf "Base URL is %q" [Main.ws_BaseURL w]].
Proof.
  intros Hrun.
  apply commandLineConfigurationMain_serve_inv in Hrun
    as (Hpw & _ & _ & Hout & storage & g0 & _ & _ & Hpre & dev & Hroutes & Hdev).
  split; [exact Hpre|]. rewrite Hroutes.
  destruct Hdev as [(-> & -> & -> & _) | (owner & err & _ & _ & _ & -> & _)].
  - split; [reflexivity|]. split; [|now split].
    intros h. cbn [app]. split.
    + intros [[=]|[[= <-]|[[=]|[]]]]. reflexivity.
    + intros ->. right. now left.
  - destruct (Main.flagDevSearch f), (Main.flagDevMySql f);
      (split; [reflexivity|]); (split; [|now split]);
      intros h; cbn [app]; (split; [|intros ->; right; now left]);
      intros Hin;
      repeat (destruct Hin as [Hin|Hin];
              [first [discriminate | now injection Hin as <-]|]);
      destruct Hin.
Qed.

(** X16: the root page and the route table agree on "/setup".  In the
    configuration-file mode [main] reaches [ws.Serve()] whatever the
    environment is: the routes are "/", served by [handleRoot], and
    "/setup", served by [setupHome], and no other; there is no pre-mux
    hook, nothing is written and the package-level variables are left as
    they were.  For every way [main] reaches [ws.Serve()], the page written
    by [handleRoot] contains a link to "/setup" if and only if the pattern
    "/setup" is registered, which is the case exactly in the
    configuration-file mode. *)
Theorem main_setup_link_iff_routed f w (req : Request) :
  (Main.flagUseConfigFiles f = true ->
   Main.main isValidPartitionName f w
   = Main.ws_Serve
       (Main.mkServer [] [("/", fun _ => Main.handleRoot f);
                          ("/setup", fun _ => Main.setupHome w)],
        None) []) /\
  (forall ws st out,
      Main.main isValidPartitionName f w = Main.ws_Serve (ws, st) out ->
      (exists body,
          Main.handleRoot f req = ([respond body], Ok tt) /\
          ((exists i, Spec.occurs_at "/setup" body i) <->
           In "/setup" (fst <$> Main.routes ws)) /\
          (In "/setup" (fst <$> Main.routes ws) <-> Main.flagUseConfigFiles f = true)) /\
      (Main.flagUseConfigFiles f = true ->
       fst <$> Main.routes ws = ["/"; "/setup"] /\ Main.premux ws = [] /\
       st = None /\ out = [])).
Proof.
  split.
  { unfold Main.main. intros ->. reflexivity. }
  intros ws st out.
  unfold Main.main, Main.handleRoot.
  destruct (Main.flagUseConfigFiles f) eqn:Hmode.
  - unfold Main.configFileMain. intros [= <- <- <-]. split; [|now repeat split].
    eexists. split; [reflexivity|]. cbn. split; [|tauto]. split; [tauto|].
    intros _.
    exists (String.length
              ("<html><body>This is camlistored, a "
               +:+ "<a href='http://camlistore.org'>Camlistore</a> server."
               +:+ "<p>If you're coming from localhost, hit <a href='")).
    exists ("<html><body>This is camlistored, a "
            +:+ "<a href='http://camlistore.org'>Camlistore</a> server."
            +:+ "<p>If you're coming from localhost, hit <a href='"),
      ("'>/setup</a>.</p></body></html>" +:+ newline).
    split; reflexivity.
  - destruct (cmdline f w) as [code out'|[[ws' g] pw] out'] eqn:Hrun; [discriminate|].
    intros [= <- <- <-]. split; [|discriminate].
    apply served_patterns in Hrun as Hpatterns.
    assert (~ In "/setup" (fst <$> Main.routes ws')) as Hnot.
    { rewrite Hpatterns.
      destruct (Main.flagDevSearch f), (Main.flagDevMySql f); cbn;
        intros Hin; repeat (destruct Hin as [Hin|Hin]; [discriminate|]); destruct Hin. }
    eexists. split; [reflexivity|]. split; [|split; [tauto | discriminate]].
    split; [|tauto]. intros [i Hi]. exfalso.
    assert (Spec.absent "/setup"
              ("<html><body>This is camlistored, a "
               +:+ "<a href='http://camlistore.org'>Camlistore</a> server."
               +:+ "" +:+ "</body></html>" +:+ newline)) as Habs
      by (apply Index_absent; vm_compute; reflexivity).
    exact (Habs i Hi).
Qed.

(** X17: with [--devmysqlindexer], a server that reaches [ws.Serve()]
    has exactly one handler under "/indexer/": the closure of
    [makeIndexHandler] over the indexer (built from [--dbname], the
    signer's key and the local disk storage) and over a partition of its
    own.  On a request whose path is "/indexer" followed by a well-formed
    path, it logs the action and that partition and dispatches the action
    against that partition and the indexer; it returns normally on every
    request whose path begins with the pattern.  The partition is the
    struct named "indexer" (writable, not readable, not a queue) whose
    urlbase is the web server's base URL followed by "/indexer"; it is
    not a mirror of the main partition and is no value of
    [queuePartitionMap], so it is reached through this route only. *)
Theorem indexer_route f w ws g pw out :
  Main.commandLineConfigurationMain isValidPartitionName f w = Main.ws_Serve (ws, g, pw) out ->
  Main.flagDevMySql f = true ->
  exists h partition owner storage,
    Main.localdisk_New w (Main.flagStorageRoot f) = inl storage /\
    Main.client_SignerPublicKeyBlobref w = Some owner /\
    (forall h', In ("/indexer/", h') (Main.routes ws) <-> h' = h) /\
    (forall g1,
        h g1 = makeIndexHandler_closure
                 (Main.flagRequestLog f) isValidPartitionName partition
                 (Main.mysqlindexer_Indexer w (Main.flagDatabaseName f) owner storage)) /\
    (forall g1 method sub partName action,
        parseCamliPath isValidPartitionName sub = Ok (partName, action, None) ->
        h g1 (mkRequest method ("/indexer" +:+ sub))
        = (log_Printf "INDEXER action %s on partition %q"
                      [arg_string action; arg_partition partition]
             :: handleCamliUsingStorage
                  (Main.flagRequestLog f) (mkRequest method ("/indexer" +:+ sub))
                  action partition
                  (Main.mysqlindexer_Indexer w (Main.flagDatabaseName f) owner storage),
           Ok tt)) /\
    deref g partition =
      Some (mkPartitionConfig "indexer" true false false []
              (Main.ws_BaseURL w +:+ "/indexer")) /\
    ~ In partition (mirrors (mainPartition_obj g)) /\
    (forall k, queuePartitionMap g !! k <> Some partition) /\
    (forall g1 req,
        Spec.begins_with "/indexer/" (URL_Path req) -> snd (h g1 req) = Ok tt).
Proof.
  intros Hrun Hmysql.
  apply commandLineConfigurationMain_serve_inv in Hrun
    as (_ & _ & _ & _ & storage & g0 & Hdisk & Hreg & _ & dev & Hroutes & Hdev).
  destruct Hdev as [(_ & Hno & _) | (owner & err & _ & Hkey & _ & Hdev & Hg)];
    [congruence|].
  rewrite Hmysql in Hdev, Hg.
  pose proof (startup_shape _ _ _ _ Hreg) as (Hheap & Hmain & _ & _).
  pose proof (startup_registry_lookup _ _ _ _ Hreg) as Hmap.
  exists (fun _ => fst (mount f g0 (indexer_of f w owner storage))),
    (alloc (length (heap g0))), owner, storage.
  subst g. cbn [makeIndexHandler new_partitionConfig snd fst deref heap
                mainPartition_obj queuePartitionMap].
  split; [exact Hdisk|]. split; [exact Hkey|].
  split; [|split; [|split; [|split; [|split; [|split]]]]].
  - intros h'. rewrite Hroutes, Hdev. split.
    + intros Hin. cbn [app] in Hin.
      destruct Hin as [[=]|[[=]|Hin]].
      apply in_app_or in Hin as [Hin | [[=]|[]]].
      apply in_app_or in Hin as [Hin | [[= <-]|[]]]; [|reflexivity].
      destruct (Main.flagDevSearch f); cbn in Hin; [|destruct Hin].
      destruct Hin as [[=]|[]].
    + intros ->. cbn [app]. right. right. apply in_or_app. left.
      apply in_or_app. right. now left.
  - reflexivity.
  - intros _ method sub partName action Hparse.
    rewrite indexer_under_prefix, Hparse. reflexivity.
  - rewrite (list_lookup_middle (heap g0) [] _ (length (heap g0))) by reflexivity.
    now rewrite Hmain.
  - rewrite Hmain. cbn [mirrors]. rewrite Hheap, length_fmap.
    intros Hin. apply list_elem_of_In, list_elem_of_fmap in Hin as (n & [= ->] & Hn).
    apply elem_of_seq in Hn. lia.
  - intros k. rewrite Hmap.
    destruct (decide (k = "")) as [->|Hk].
    + rewrite lookup_singleton_eq. discriminate.
    + rewrite lookup_singleton_ne by congruence. discriminate.
  - intros g1 [method path] [rest Hrest]. cbn [URL_Path] in Hrest. subst path.
    change ("/indexer/" +:+ rest) with ("/indexer" +:+ ("/" +:+ rest)).
    rewrite indexer_under_prefix.
    destruct (parseCamliPath_total isValidPartitionName ("/" +:+ rest))
      as (partName & action & e & ->).
    now destruct e.
Qed.

(** X18: urlbases are derived from the web server's actual base URL, not
    from the placeholder "http://localhost" of the initial
    [mainPartition]: when the command-line configuration reaches
    [ws.Serve()], the main partition's urlbase is that base URL and the
    urlbase of every allocated partition (the mirrors, and the indexer
    partition if there is one) begins with it. *)
Theorem urlbases_from_base_URL f w ws g pw out :
  Main.commandLineConfigurationMain isValidPartitionName f w = Main.ws_Serve (ws, g, pw) out ->
  urlbase (mainPartition_obj g) = Main.ws_BaseURL w /\
  Forall (fun p => Spec.begins_with (Main.ws_BaseURL w) (urlbase p)) (heap g).
Proof.
  intros Hrun.
  apply commandLineConfigurationMain_serve_inv in Hrun
    as (_ & _ & _ & _ & storage & g0 & _ & Hreg & _ & dev & _ & Hdev).
  pose proof (startup_shape _ _ _ _ Hreg) as (Hheap & Hmain & _ & _).
  assert (Forall (fun p => Spec.begins_with (Main.ws_BaseURL w) (urlbase p)) (heap g0))
    as Hmirrors.
  { rewrite Hheap. apply Forall_fmap, Forall_forall. intros partName _.
    unfold compose, queue_partition. cbn [urlbase]. now eexists. }
  destruct Hdev as [(_ & _ & _ & ->) | (owner & err & _ & _ & _ & _ & ->)].
  - rewrite Hmain. now split.
  - destruct (Main.flagDevMySql f); [|rewrite Hmain; now split].
    cbn [makeIndexHandler new_partitionConfig snd heap mainPartition_obj].
    split; [now rewrite Hmain|].
    apply Forall_app. split; [exact Hmirrors|].
    apply Forall_singleton. cbn [urlbase]. rewrite Hmain. cbn [urlbase]. now eexists.
Qed.

End MainFacts.

(** ** The further properties on the reference deployment *)

Lemma parseCamliPath_success_iff_witness :
  parseCamliPath Reference.isValidPartitionName "/camli/stat" = Ok ("", "stat", None).
Proof.
  apply (parseCamliPath_success_iff Reference.isValidPartitionName "/camli/stat" "" "stat").
  left. split; reflexivity.
Defined.

Lemma parseCamliPath_failure_iff_witness :
  parseCamliPath Reference.isValidPartitionName "/bogus-foo/camli/stat"
  = Ok ("", "stat", Some InvalidCamliPath).
Proof.
  apply (parseCamliPath_failure_iff Reference.isValidPartitionName
           "/bogus-foo/camli/stat" "" "stat" InvalidCamliPath).
  right. left. exists "/bogus-foo".
  split; [simpl; lia|]. split; [reflexivity|].
  split; [apply Index_first_occurrence; reflexivity|].
  split; [apply HasPrefix_false; reflexivity | reflexivity].
Defined.

Lemma parseCamliPath_format_roundtrip_witness :
  slash_free "queue-indexer" = true /\
  Reference.isValidPartitionName "queue-indexer" = true /\
  parseCamliPath Reference.isValidPartitionName
    (partitionPrefix +:+ "queue-indexer" +:+ camliPrefix +:+ "stat/camli/x")
  = Ok ("queue-indexer", "stat/camli/x", None).
Proof.
  assert (slash_free "queue-indexer" = true) as Hfree by reflexivity.
  assert (Reference.isValidPartitionName "queue-indexer" = true) as Hvalid by reflexivity.
  split; [exact Hfree|]. split; [exact Hvalid|].
  exact (parseCamliPath_format_roundtrip Reference.isValidPartitionName
           "queue-indexer" "stat/camli/x" Hfree Hvalid).
Defined.

Lemma startup_empty_name_fatal_witness :
  "a," <> "" /\
  In "" (strings_Split "a," ",") /\
  commandLineConfigurationMain_registry "a," "http://localhost:3179" "/tmp/camliroot"
  = Fatal "Duplicate partition in --queue-partitions".
Proof.
  assert ("a," <> "") as Hne by discriminate.
  assert (In "" (strings_Split "a," ",")) as Hin by (right; left; reflexivity).
  split; [exact Hne|]. split; [exact Hin|].
  exact (startup_empty_name_fatal "a," "http://localhost:3179" "/tmp/camliroot" Hne Hin).
Defined.

Lemma names_a_b_c : queue_partition_names "a,b,c" = ["a"; "b"; "c"].
Proof. reflexivity. Qed.

Lemma NoDup_a_b_c : NoDup (queue_partition_names "a,b,c").
Proof.
  rewrite names_a_b_c.
  repeat (apply NoDup_cons_2;
          [rewrite ?elem_of_cons, elem_of_nil; intros H;
           repeat (destruct H as [H|H]; [discriminate|]); exact H|]).
  apply NoDup_nil_2.
Qed.

Lemma no_empty_a_b_c : ~ In "" (queue_partition_names "a,b,c").
Proof.
  rewrite names_a_b_c. simpl.
  intros H. repeat (destruct H as [H|H]; [discriminate|]). exact H.
Qed.

Lemma startup_mirrors_witness :
  NoDup (queue_partition_names "a,b,c") /\
  ~ In "" (queue_partition_names "a,b,c") /\
  exists g,
    commandLineConfigurationMain_registry "a,b,c" "http://localhost:3179" "/tmp/camliroot"
    = Continue g /\
    name <$> heap g = ["a"; "b"; "c"] /\
    mirrors (mainPartition_obj g) = [alloc 0; alloc 1; alloc 2].
Proof.
  split; [exact NoDup_a_b_c|]. split; [exact no_empty_a_b_c|].
  destruct (startup_mirrors "a,b,c" "http://localhost:3179" "/tmp/camliroot"
              NoDup_a_b_c no_empty_a_b_c)
    as (g & Hrun & Hheap & Hmain & _).
  exists g. split; [exact Hrun|]. rewrite Hheap, Hmain. split; reflexivity.
Defined.

Lemma startup_names_roundtrip_witness :
  NoDup (queue_partition_names "a,b,c") /\
  ~ In "" (queue_partition_names "a,b,c") /\
  exists g,
    commandLineConfigurationMain_registry "a,b,c" "http://localhost:3179" "/tmp/camliroot"
    = Continue g /\
    String.concat "," (name <$> heap g) = "a,b,c".
Proof.
  split; [exact NoDup_a_b_c|]. split; [exact no_empty_a_b_c|].
  exact (startup_names_roundtrip "a,b,c" "http://localhost:3179" "/tmp/camliroot"
           NoDup_a_b_c no_empty_a_b_c).
Defined.

Lemma setupMirrorPartitions_only_appends_witness :
  exists g',
    setupMirrorPartitions "a,b" Reference.globals = Continue g' /\
    storage g' = storage Reference.globals /\
    (exists added,
        mirrors (mainPartition_obj g')
        = (mirrors (mainPartition_obj Reference.globals) ++ added)%list /\
        length added = 2%nat).
Proof.
  destruct (setupMirrorPartitions "a,b" Reference.globals) as [g'|msg] eqn:Hrun;
    [|vm_compute in Hrun; discriminate].
  exists g'. split; [reflexivity|].
  destruct (setupMirrorPartitions_only_appends "a,b" Reference.globals g' Hrun)
    as (_ & (added & Hadded & _) & _ & _ & Hstorage & _).
  split; [exact Hstorage|]. exists added. split; [exact Hadded|].
  apply (f_equal length) in Hadded. rewrite length_app in Hadded.
  apply setupMirrorPartitions_loop_shape in Hrun as (_ & Hmain & _).
  apply (f_equal (fun m => length (mirrors m))) in Hmain.
  cbn [set_mirrors mirrors] in Hmain. rewrite length_app, length_fmap in Hmain.
  cbn in Hmain, Hadded. lia.
Defined.

Lemma handleCamli_backend_only_if_registered_witness :
  Exists (fun e => is_backend e = true)
         (fst (handleCamli false Reference.isValidPartitionName Reference.globals
                 (mkRequest "GET" "/camli/stat"))) /\
  exists partName action partition,
    parseCamliPath Reference.isValidPartitionName "/camli/stat"
    = Ok (partName, action, None) /\
    queuePartitionMap Reference.globals !! partName = Some partition.
Proof.
  assert (Exists (fun e => is_backend e = true)
                 (fst (handleCamli false Reference.isValidPartitionName Reference.globals
                         (mkRequest "GET" "/camli/stat")))) as Hex
    by (apply Exists_cons_hd; reflexivity).
  split; [exact Hex|].
  destruct (handleCamli_backend_only_if_registered false Reference.isValidPartitionName
              Reference.globals (mkRequest "GET" "/camli/stat") Hex)
    as (partName & action & partition & Hparse & Hlook & _).
  now exists partName, action, partition.
Defined.


Lemma intercepted_without_marker_witness :
  Spec.begins_with partitionPrefix "/partition-foo" /\
  Spec.absent camliPrefix "/partition-foo" /\
  exists h,
    pickPartitionHandlerMaybe false Reference.isValidPartitionName Reference.globals
      (mkRequest "GET" "/partition-foo") = (Some h, true) /\
    h (mkRequest "GET" "/partition-foo")
    = ([log_Printf "Invalid request for method %q, path %q"
                   [arg_string "GET"; arg_string "/partition-foo"];
        httputil_BadRequestError "Unsupported camlistore path or method."],
       Ok tt).
Proof.
  assert (Spec.begins_with partitionPrefix "/partition-foo") as Hin
    by (apply HasPrefix_begins_with; reflexivity).
  assert (Spec.absent camliPrefix "/partition-foo") as Habs
    by (apply Index_absent; reflexivity).
  split; [exact Hin|]. split; [exact Habs|].
  exact (intercepted_without_marker false Reference.isValidPartitionName
           Reference.globals (mkRequest "GET" "/partition-foo") Hin Habs).
Defined.

Lemma commandLineConfigurationMain_routes_witness :
  exists ws g pw out,
    Main.commandLineConfigurationMain Reference.isValidPartitionName
      ReferenceMain.dev_Flags ReferenceMain.world = Main.ws_Serve (ws, g, pw) out /\
    fst <$> Main.routes ws = ["/"; "/camli/"; "/camli/search"; "/indexer/"; "/js/"] /\
    pw = "secret".
Proof.
  destruct (Main.commandLineConfigurationMain Reference.isValidPartitionName
              ReferenceMain.dev_Flags ReferenceMain.world)
    as [code out|[[ws g] pw] out] eqn:Hrun; [vm_compute in Hrun; discriminate|].
  exists ws, g, pw, out. split; [reflexivity|].
  destruct (commandLineConfigurationMain_routes Reference.isValidPartitionName
              ReferenceMain.dev_Flags ReferenceMain.world ws g pw out Hrun)
    as (_ & Hpatterns & _ & Hpw & _).
  split; [exact Hpatterns | exact Hpw].
Defined.

Lemma main_setup_link_iff_routed_witness :
  Main.os_Getenv ReferenceMain.bare_world "CAMLI_PASSWORD" = "" /\
  (exists ws,
      Main.main Reference.isValidPartitionName
        ReferenceMain.config_Flags ReferenceMain.bare_world
      = Main.ws_Serve (ws, None) [] /\
      fst <$> Main.routes ws = ["/"; "/setup"] /\
      exists body i,
        Main.handleRoot ReferenceMain.config_Flags (mkRequest "GET" "/")
        = ([respond body], Ok tt) /\
        Spec.occurs_at "/setup" body i) /\
  (exists ws st out,
      Main.main Reference.isValidPartitionName Main.default_Flags ReferenceMain.world
      = Main.ws_Serve (ws, st) out /\
      ~ In "/setup" (fst <$> Main.routes ws)).
Proof.
  split; [reflexivity|]. split.
  - destruct (main_setup_link_iff_routed Reference.isValidPartitionName
                ReferenceMain.config_Flags ReferenceMain.bare_world
                (mkRequest "GET" "/"))
      as [Hserve Hlink].
    specialize (Hserve eq_refl).
    eexists. split; [exact Hserve|]. split; [reflexivity|].
    destruct (Hlink _ _ _ Hserve) as [(body & Hpage & Hbody & Hmode) _].
    exists body.
    destruct (proj2 Hbody (proj2 Hmode eq_refl)) as [i Hi].
    now exists i.
  - destruct (Main.main Reference.isValidPartitionName Main.default_Flags
                ReferenceMain.world)
      as [code out|[ws st] out] eqn:Hrun; [vm_compute in Hrun; discriminate|].
    exists ws, st, out. split; [reflexivity|].
    destruct (main_setup_link_iff_routed Reference.isValidPartitionName
                Main.default_Flags ReferenceMain.world (mkRequest "GET" "/"))
      as [_ Hlink].
    destruct (Hlink ws st out Hrun) as [(body & _ & _ & Hmode) _].
    intros Hin. apply Hmode in Hin. discriminate.
Defined.

Lemma indexer_route_witness :
  Main.flagDevMySql ReferenceMain.dev_Flags = true /\
  exists ws g pw out h partition,
    Main.commandLineConfigurationMain Reference.isValidPartitionName
      ReferenceMain.dev_Flags ReferenceMain.world = Main.ws_Serve (ws, g, pw) out /\
    In ("/indexer/", h) (Main.routes ws) /\
    h g (mkRequest "GET" "/indexer/camli/stat")
    = ([log_Printf "INDEXER action %s on partition %q"
                   [arg_string "stat"; arg_partition partition];
        backend op_stat; respond "devcamlistore"],
       Ok tt) /\
    name <$> deref g partition = Some "indexer" /\
    urlbase <$> deref g partition = Some "http://localhost:3179/indexer".
Proof.
  split; [reflexivity|].
  destruct (Main.commandLineConfigurationMain Reference.isValidPartitionName
              ReferenceMain.dev_Flags ReferenceMain.world)
    as [code out|[[ws g] pw] out] eqn:Hrun; [vm_compute in Hrun; discriminate|].
  destruct (indexer_route Reference.isValidPartitionName
              ReferenceMain.dev_Flags ReferenceMain.world ws g pw out Hrun eq_refl)
    as (h & partition & owner & storage & _ & _ & Hroute & _ & Hdispatch & Hderef & _).
  exists ws, g, pw, out, h, partition. split; [reflexivity|].
  split; [now apply Hroute|].
  split; [|rewrite Hderef; split; reflexivity].
  exact (Hdispatch g "GET" "/camli/stat" "" "stat" eq_refl).
Defined.

Lemma urlbases_from_base_URL_witness :
  exists ws g pw out,
    Main.commandLineConfigurationMain Reference.isValidPartitionName
      ReferenceMain.dev_Flags ReferenceMain.world = Main.ws_Serve (ws, g, pw) out /\
    urlbase (mainPartition_obj g) = "http://localhost:3179" /\
    length (heap g) = 2%nat.
Proof.
  destruct (Main.commandLineConfigurationMain Reference.isValidPartitionName
              ReferenceMain.dev_Flags ReferenceMain.world)
    as [code out|[[ws g] pw] out] eqn:Hrun; [vm_compute in Hrun; discriminate|].
  exists ws, g, pw, out. split; [reflexivity|].
  destruct (urlbases_from_base_URL Reference.isValidPartitionName
              ReferenceMain.dev_Flags ReferenceMain.world ws g pw out Hrun)
    as [Hmain _].
  split; [exact Hmain|].
  vm_compute in Hrun. now injection Hrun as _ <- _ _.
Defined.

(** ** Package misc *)

Section MiscFacts.

Variable sha256_Sum : list ascii -> list ascii.

Lemma hex_digit_lowercase (d : N) : Misc.lowercase_hex (Misc.hex_digit d).
Proof.
  unfold Misc.lowercase_hex.
  destruct d as [|p]; [simpl; tauto|].
  destruct p as [p|p|]; [| |simpl; tauto];
    (destruct p as [p|p|]; [| |simpl; tauto]);
    (destruct p as [p|p|]; [| |simpl; tauto]);
    (destruct p as [p|p|]; simpl; tauto).
Qed.

Lemma Sprintf_x_length (bs : list ascii) :
  String.length (Misc.Sprintf_x bs) = (2 * length bs)%nat.
Proof. induction bs as [|b bs IH]; simpl; [reflexivity | rewrite IH; lia]. Qed.

Lemma Sprintf_x_take (bs : list ascii) : forall k,
  substring 0 (2 * k) (Misc.Sprintf_x bs) = Misc.Sprintf_x (take k bs).
Proof.
  induction bs as [|b bs IH]; intros k.
  - destruct k; reflexivity.
  - destruct k as [|k]; [reflexivity|].
    replace (2 * S k)%nat with (S (S (2 * k))) by lia.
    simpl. now rewrite <- IH.
Qed.

Lemma Sprintf_x_lowercase (bs : list ascii) :
  Forall Misc.lowercase_hex (list_ascii_of_string (Misc.Sprintf_x bs)).
Proof.
  induction bs as [|b bs IH]; simpl; [constructor|].
  repeat (constructor; [apply hex_digit_lowercase|]). exact IH.
Qed.

(** X19: [SHA256Prefix] returns the first twenty lowercase hexadecimal
    digits of the digest.  For a digest of 32 bytes the slice is in range
    and the result is the hexadecimal form of the first ten bytes of the
    digest: twenty characters, each one of "0123456789abcdef". *)
Theorem SHA256Prefix_twenty_hex_digits (data : list ascii) :
  length (sha256_Sum data) = 32%nat ->
  exists s,
    Misc.SHA256Prefix sha256_Sum data = Ok s /\
    s = Misc.Sprintf_x (take 10 (sha256_Sum data)) /\
    String.length s = 20%nat /\
    Forall Misc.lowercase_hex (list_ascii_of_string s).
Proof.
  intros Hlen. exists (Misc.Sprintf_x (take 10 (sha256_Sum data))).
  split; [|split; [reflexivity|split]].
  - unfold Misc.SHA256Prefix, slice, len.
    rewrite Sprintf_x_length, Hlen. cbn [Z.leb Z.compare andb Z.of_nat].
    change (Z.to_nat (20 - 0)) with (2 * 10)%nat. change (Z.to_nat 0) with 0%nat.
    now rewrite Sprintf_x_take.
  - rewrite Sprintf_x_length, length_take, Hlen. reflexivity.
  - apply Sprintf_x_lowercase.
Qed.

End MiscFacts.

Lemma SHA256Prefix_twenty_hex_digits_witness :
  length (repeat "171"%char 32) = 32%nat /\
  Misc.SHA256Prefix (fun _ => repeat "171"%char 32) [] = Ok "abababababababababab".
Proof.
  assert (length (repeat "171"%char 32) = 32%nat) as Hlen by reflexivity.
  split; [exact Hlen|].
  destruct (SHA256Prefix_twenty_hex_digits (fun _ => repeat "171"%char 32) [] Hlen)
    as (s & -> & -> & _).
  reflexivity.
Defined.
